(** * qclient: shared hash and connection manager, embedded and verified

  The development follows the C++ sources:
  - [src/shared/SharedHash.cc]  -> [Module SharedHash]
  - [src/QClient.cc]            -> [Module QClient]

  Unsigned 64-bit quantities ([uint64_t]) are integers in [Z] with the
  wrap-around written out ([wrap64]); [std::map<std::string, std::string>]
  is a [gmap string string], traversed in key order where the code
  iterates over it; a [redisReplyPtr] is an [option redisReply], the null
  pointer being [None]. *)

From Stdlib Require Import ZArith List String Ascii Bool Lia.
From stdpp Require Import base option list gmap strings sorting.
Import ListNotations.

Local Open Scope string_scope.
Local Open Scope Z_scope.
Local Open Scope list_scope.

(** ** Machine integers *)

Definition two64 : Z := 2 ^ 64.

(** Conversion to [uint64_t], and the result of unsigned 64-bit arithmetic. *)
Definition wrap64 (z : Z) : Z := z mod two64.

(** The values a [uint64_t] can hold. *)
Definition is_u64 (z : Z) : Prop := 0 <= z < two64.

(** The values a [long long] (the integer of a [redisReply]) can hold. *)
Definition is_i64 (z : Z) : Prop := - 2 ^ 63 <= z < 2 ^ 63.

(** ** hiredis replies *)

(** [redisReply]: the [type] tag selects which fields are meaningful. *)
#[warnings="-register-all"]
Inductive redisReply : Type :=
| REDIS_REPLY_STRING (str : string)
| REDIS_REPLY_ARRAY (element : list redisReply)
| REDIS_REPLY_INTEGER (integer : Z)
| REDIS_REPLY_NIL
| REDIS_REPLY_STATUS (str : string)
| REDIS_REPLY_ERROR (str : string).

(** [std::shared_ptr<redisReply>]; [None] is [nullptr]. *)
Definition redisReplyPtr : Type := option redisReply.

(** ** Logger *)

Inductive LogLevel : Type := kFatal | kError | kWarn | kInfo | kDebug.

(** The messages [SharedHash] writes through [QCLIENT_LOG]; the text is kept
  symbolic, the values printed into it are the constructor arguments. *)
Inductive LogMessage : Type :=
| MsgCouldNotParse (reply : redisReplyPtr)
| MsgNewerThanServer (revision current : Z)
| MsgOutOfDate (revision current : Z)
| MsgResilvered (revision current : Z).

Definition LogLine : Type := (LogLevel * LogMessage)%type.

(** ** [std::map] traversal *)

Module StdMap.

(** Order of [std::less<std::string>] on the keys of a pair. *)
Definition key_le (x y : string * string) : Prop :=
  String.leb (fst x) (fst y) = true.

#[global] Instance key_le_dec x y : Decision (key_le x y).
Proof. unfold key_le. apply _. Defined.

(** [for (it = m.begin(); it != m.end(); it++)]: the pairs by ascending key. *)
Definition items (m : gmap string string) : list (string * string) :=
  merge_sort key_le (map_to_list m).

End StdMap.

(** ** The client as [SharedHash] sees it *)

Module ClientPort.

(** What [QClient::exec] / [QClient::execute] were asked to send. *)
Inductive Request : Type :=
| Command (argv : list string)
| Pipeline (cmds : list (list string)).

(** [requests]: everything handed to the client, in order; the position of
    a request identifies its [std::future].  [replies]: the futures that
    have become ready, with their value. *)
Record t : Type := mk {
  requests : list Request;
  replies : gmap nat redisReplyPtr
}.

Definition init : t := {| requests := []; replies := ∅ |}.

(** Issue a request; the result is the new future. *)
Definition execute (r : Request) (c : t) : nat * t :=
  (length (requests c), {| requests := requests c ++ [r]; replies := replies c |}).

(** The reply of request [id] arrives (done by the client's reader). *)
Definition fulfil (id : nat) (r : redisReplyPtr) (c : t) : t :=
  {| requests := requests c; replies := <[id := r]> (replies c) |}.

(** Issued, and the reply has not arrived. *)
Definition in_flight (c : t) (id : nat) : bool :=
  bool_decide (id < length (requests c))%nat && bool_decide (replies c !! id = None).

Definition in_flight_where (p : Request -> bool) (c : t) : list nat :=
  filter (fun id => in_flight c id && match requests c !! id with
                                      | Some r => p r
                                      | None => false
                                      end = true)
         (seq 0 (length (requests c))).

End ClientPort.

(** ** MULTI builder *)

Module MultiBuilder.

(** The argv vectors accumulated so far. *)
Definition t : Type := list (list string).

Definition empty : t := [].

(** [multi.emplace_back(args...)] *)
Definition emplace_back (argv : list string) (multi : t) : t := multi ++ [argv].

(** Modelled from the spec: [MultiBuilder.hh] is not among the sources.
    The builder "accumulates argv vectors and emits a single
    MULTI/EXEC-bracketed" buffer, which decodes to
    [MULTI, argv1, ..., argvN, EXEC]. *)
Definition getDeque (multi : t) : list (list string) :=
  [["MULTI"]] ++ multi ++ [["EXEC"]].

End MultiBuilder.

(** ** [SharedHash] *)

Module SharedHash.

(** The members of the class.  [futureReply] is [None] for a future that is
    not [valid()] (default-constructed, or already consumed by [get()]),
    and otherwise names the request whose reply it will hold. *)
Record t : Type := mk {
  key : string;
  currentVersion : Z;
  contents : gmap string string;
  futureReply : option nat;
  qcl : ClientPort.t;
  logger : list LogLine
}.

Definition with_version (v : Z) (h : t) : t :=
  mk (key h) v (contents h) (futureReply h) (qcl h) (logger h).
Definition with_contents (c : gmap string string) (h : t) : t :=
  mk (key h) (currentVersion h) c (futureReply h) (qcl h) (logger h).
Definition with_future (f : option nat) (h : t) : t :=
  mk (key h) (currentVersion h) (contents h) f (qcl h) (logger h).
Definition with_qcl (c : ClientPort.t) (h : t) : t :=
  mk (key h) (currentVersion h) (contents h) (futureReply h) c (logger h).

(** [QCLIENT_LOG(logger, level, message)] *)
Definition QCLIENT_LOG (level : LogLevel) (msg : LogMessage) (h : t) : t :=
  mk (key h) (currentVersion h) (contents h) (futureReply h) (qcl h)
     (logger h ++ [(level, msg)]).

(** [triggerResilvering]: [futureReply = qcl->exec("VHGETALL", key)]. *)
Definition triggerResilvering (h : t) : t :=
  let '(fut, c) :=
    ClientPort.execute (ClientPort.Command ["VHGETALL"; key h]) (qcl h) in
  with_future (Some fut) (with_qcl c h).

(** The constructor: version 0, empty contents, then [triggerResilvering].
    (Attaching the listener and subscribing to ["__vhash@" ++ key] go to
    other objects and leave the members above as they are.) *)
Definition create (client : ClientPort.t) (key_ : string) : t :=
  triggerResilvering (mk key_ 0 ∅ None client []).

(** [parseError] *)
Definition parseError (reply : redisReplyPtr) (h : t) : t :=
  QCLIENT_LOG kWarn (MsgCouldNotParse reply) h.

(** [resilver(revision, newContents)] *)
Definition resilver (revision : Z) (newContents : gmap string string) (h : t) : t :=
  let h1 := QCLIENT_LOG kWarn (MsgResilvered revision (currentVersion h)) h in
  with_contents newContents (with_version revision h1).

(** The loop of [handleResponse] over [contentArray], two elements at a
    time; [None] when an element is not a [REDIS_REPLY_STRING]. *)
Fixpoint collect_pairs (contentArray : list redisReply)
         (acc : gmap string string) : option (gmap string string) :=
  match contentArray with
  | [] => Some acc
  | REDIS_REPLY_STRING k :: REDIS_REPLY_STRING v :: rest =>
      collect_pairs rest (<[k := v]> acc)
  | _ => None
  end.

(** [handleResponse(reply)] *)
Definition handleResponse (reply : redisReplyPtr) (h : t) : t :=
  match reply with
  | Some (REDIS_REPLY_ARRAY [e0; e1]) =>
      match e0 with
      | REDIS_REPLY_INTEGER n =>
          let revision := wrap64 n in
          match e1 with
          | REDIS_REPLY_ARRAY contentArray =>
              if negb (Nat.eqb (Nat.modulo (length contentArray) 2) 0)
              then parseError reply h
              else match collect_pairs contentArray ∅ with
                   | Some newContents => resilver revision newContents h
                   | None => parseError reply h
                   end
          | _ => parseError reply h
          end
      | _ => parseError reply h
      end
  | _ => parseError reply h
  end.

(** [checkFuture]: a valid and ready future is consumed and its value
    handled; [get()] leaves the future invalid. *)
Definition checkFuture (h : t) : t :=
  match futureReply h with
  | Some fut =>
      match ClientPort.replies (qcl h) !! fut with
      | Some reply => handleResponse reply (with_future None h)
      | None => h
      end
  | None => h
  end.

(** [get(field, value)]: [Some value] stands for "true, with value". *)
Definition get (field : string) (h : t) : option string * t :=
  let h1 := checkFuture h in
  (contents h1 !! field, h1).

(** [getCurrentVersion] *)
Definition getCurrentVersion (h : t) : Z * t :=
  let h1 := checkFuture h in
  (currentVersion h1, h1).

(** [notifyConnectionLost] does nothing. *)
Definition notifyConnectionLost (epoch errc : Z) (msg : string) (h : t) : t := h.

(** [notifyConnectionEstablished] *)
Definition notifyConnectionEstablished (epoch : Z) (h : t) : t :=
  checkFuture (triggerResilvering h).

(** [processIncoming(msg)]: the message itself is not looked at. *)
Definition processIncoming (h : t) : t := checkFuture h.

(** [feedSingleKeyValue(key, value)], on the contents. *)
Definition feedSingleKeyValue (key_ value : string)
           (c : gmap string string) : gmap string string :=
  if String.eqb value "" then delete key_ c else <[key_ := value]> c.

(** The loop [for i in 0 .. updates.size()) feedSingleKeyValue(...)]. *)
Definition feedAll (updates : list (string * string))
           (c : gmap string string) : gmap string string :=
  fold_left (fun acc kv => feedSingleKeyValue (fst kv) (snd kv) acc) updates c.

(** [feedRevision(revision, updates)].  [currentVersion + 2] is computed
    in [uint64_t]. *)
Definition feedRevision (revision : Z) (updates : list (string * string))
           (h : t) : bool * t :=
  if revision <=? currentVersion h then
    (false, QCLIENT_LOG kError (MsgNewerThanServer revision (currentVersion h)) h)
  else if revision >=? wrap64 (currentVersion h + 2) then
    (false, QCLIENT_LOG kWarn (MsgOutOfDate revision (currentVersion h)) h)
  else
    (true, with_version revision (with_contents (feedAll updates (contents h)) h)).

(** The overload for a single pair. *)
Definition feedRevision1 (revision : Z) (key_ value : string) (h : t) : bool * t :=
  feedRevision revision [(key_, value)] h.

(** The command [set(batch)] adds for one pair of the batch. *)
Definition batch_command (kv : string * string) : list string :=
  if String.eqb (snd kv) "" then ["VHDEL"; fst kv]
  else ["VHSET"; fst kv; snd kv].

(** The [MultiBuilder] after the loop of [set(batch)]. *)
Definition batch_multi (batch : gmap string string) : MultiBuilder.t :=
  fold_left (fun multi kv => MultiBuilder.emplace_back (batch_command kv) multi)
            (StdMap.items batch) MultiBuilder.empty.

(** [set(batch)]: the future [execute] returns is dropped. *)
Definition set_batch (batch : gmap string string) (h : t) : t :=
  let multi := batch_multi batch in
  let '(_, c) :=
    ClientPort.execute (ClientPort.Pipeline (MultiBuilder.getDeque multi)) (qcl h) in
  with_qcl c h.

(** [set(field, value)]: [batch[field] = value] on an empty map. *)
Definition set (field value : string) (h : t) : t :=
  set_batch (<[field := value]> ∅) h.

(** [del(field)]: [batch[field] = ""] on an empty map. *)
Definition del (field : string) (h : t) : t :=
  set_batch (<[field := ""]> ∅) h.

(** The class invariant of the integer member. *)
Definition wf (h : t) : Prop := is_u64 (currentVersion h).

End SharedHash.

(** *** Sequences of updates and of events on a shared hash *)

Module HashTrace.
Import SharedHash.

(** The two operations that write [contents] and [currentVersion]. *)
Inductive Update : Type :=
| FeedRevision (revision : Z) (updates : list (string * string))
| Resilver (revision : Z) (newContents : gmap string string).

Definition apply_update (u : Update) (h : t) : t :=
  match u with
  | FeedRevision revision updates => snd (feedRevision revision updates h)
  | Resilver revision newContents => resilver revision newContents h
  end.

Definition run_updates (us : list Update) (h : t) : t :=
  fold_left (fun acc u => apply_update u acc) us h.

(** Every [Resilver] of the sequence carries a revision that is not below
    the version the hash has when it is applied. *)
Fixpoint resilvers_not_older (us : list Update) (h : t) : Prop :=
  match us with
  | [] => True
  | u :: rest =>
      match u with
      | Resilver revision _ => currentVersion h <= revision
      | FeedRevision _ _ => True
      end /\ resilvers_not_older rest (apply_update u h)
  end.

(** What can happen to a hash after its construction: calls of its public
    members, and the arrival of the reply of a request at the client. *)
Inductive Event : Type :=
| ConnectionEstablished (epoch : Z)
| ConnectionLost (epoch errc : Z) (msg : string)
| Incoming
| Get (field : string)
| GetCurrentVersion
| Set_ (batch : gmap string string)
| Feed (revision : Z) (updates : list (string * string))
| ReplyArrives (id : nat) (reply : redisReplyPtr).

Definition step (e : Event) (h : t) : t :=
  match e with
  | ConnectionEstablished epoch => notifyConnectionEstablished epoch h
  | ConnectionLost epoch errc msg => notifyConnectionLost epoch errc msg h
  | Incoming => processIncoming h
  | Get field => snd (get field h)
  | GetCurrentVersion => snd (getCurrentVersion h)
  | Set_ batch => set_batch batch h
  | Feed revision updates => snd (feedRevision revision updates h)
  | ReplyArrives id reply => with_qcl (ClientPort.fulfil id reply (qcl h)) h
  end.

Definition run (es : list Event) (h : t) : t :=
  fold_left (fun acc e => step e acc) es h.

(** Is this request the resilver request of hash key [k]? *)
Definition is_resilver_request (k : string) (r : ClientPort.Request) : bool :=
  match r with
  | ClientPort.Command ["VHGETALL"; k'] => String.eqb k' k
  | _ => false
  end.

(** The resilver requests of the hash whose reply has not arrived. *)
Definition resilvers_in_flight (h : t) : list nat :=
  ClientPort.in_flight_where (is_resilver_request (key h)) (qcl h).

(** All resilver requests the hash has issued, oldest first. *)
Definition resilvers_issued (h : t) : list nat :=
  filter (fun id => match ClientPort.requests (qcl h) !! id with
                    | Some r => is_resilver_request (key h) r
                    | None => false
                    end = true)
         (seq 0 (length (ClientPort.requests (qcl h)))).

End HashTrace.

(** ** Helpers of [Utils.hh] and [Members.hh] *)

Module Utils.

(** [data.find(token)] and the two [substr] of the loop of [split]; the fuel
    bounds the number of pieces by the length of the input. *)
Fixpoint split_loop (fuel : nat) (data token : string) : list string :=
  match String.index 0 token data with
  | Some pos =>
      let piece := String.substring 0 pos data in
      match fuel with
      | O => [piece]
      | S fuel' =>
          let from := (pos + String.length token)%nat in
          piece :: split_loop fuel'
                     (String.substring from (String.length data - from) data) token
      end
  | None => [data]
  end.

(** Modelled from the spec: [Utils.hh] is not among the sources.  The reply
    text is cut into its "space-separated" tokens; [split data token] cuts
    [data] at every occurrence of the separator [token]. *)
Definition split (data token : string) : list string :=
  split_loop (String.length data) data token.

Definition digit_value (c : ascii) : option Z :=
  let n := Z.of_N (N_of_ascii c) in
  if (48 <=? n) && (n <=? 57) then Some (n - 48) else None.

Fixpoint parse_digits (s : string) (acc : Z) : option Z :=
  match s with
  | EmptyString => Some acc
  | String c rest =>
      match digit_value c with
      | Some d => parse_digits rest (10 * acc + d)
      | None => None
      end
  end.

(** A non-empty run of decimal digits. *)
Definition parse_number (s : string) : option Z :=
  match s with
  | EmptyString => None
  | _ => parse_digits s 0
  end.

Record RedisServer : Type := mkServer { srv_host : string; srv_port : Z }.

(** Modelled from the spec: [Utils.hh] is not among the sources.  The third
    token of a redirect "is parsed as host:port": exactly two pieces around
    a colon, the second a decimal number. *)
Definition parseServer (str : string) : option RedisServer :=
  match split str ":" with
  | [h; p] =>
      match parse_number p with
      | Some n => Some (mkServer h n)
      | None => None
      end
  | _ => None
  end.

End Utils.

(** [Endpoint]: a host and a port. *)
Record Endpoint : Type := mkEndpoint { getHost : string; getPort : Z }.

(** [Members.hh] is not among the sources: the default-constructed endpoint
    and the test [empty()] are taken as an interface, with the one law the
    connection manager relies on ([redirectedEndpoint = {}] unsets it). *)
Class EndpointOps : Type := {
  Endpoint_default : Endpoint;
  Endpoint_empty : Endpoint -> bool;
  Endpoint_default_empty : Endpoint_empty Endpoint_default = true
}.

(** Modelled from the spec: an endpoint is "set" when it has a host. *)
#[export] Instance endpoint_ops : EndpointOps := {|
  Endpoint_default := mkEndpoint "" 0;
  Endpoint_empty := fun e => String.eqb (getHost e) "";
  Endpoint_default_empty := eq_refl
|}.

(** [Handshake]: the request to send first, and the check of its reply (used
    as a truth value by [QClient::feed]). *)
Record Handshake : Type := mkHandshake {
  provideHandshake : list string;
  validateResponse : redisReply -> bool
}.

(** A request as handed to the writer; the wire encoding of an argv is a
    pure function outside this development. *)
Definition EncodedRequest : Type := list string.

(** ** The writer and its queue of staged requests *)

Module WriterThread.

(** [staged]: the queue of requests without a reply, oldest first;
    [resolved]: the requests whose future or callback has been completed,
    with the value it received ([None] is the nil reply); [active]: the
    stream the writer is activated on. *)
Record t : Type := mk {
  active : option Endpoint;
  staged : list EncodedRequest;
  resolved : list (EncodedRequest * redisReplyPtr)
}.

Definition init : t := mk None [] [].

Definition activate (stream : Endpoint) (w : t) : t :=
  mk (Some stream) (staged w) (resolved w).

Definition deactivate (w : t) : t := mk None (staged w) (resolved w).

(** Modelled from the spec: [WriterThread.cc] is not among the sources.  A
    staged request is "appended at the tail of the stager queue". *)
Definition stage (req : EncodedRequest) (w : t) : t :=
  mk (active w) (staged w ++ [req]) (resolved w).

(** Modelled from the spec: [WriterThread.cc] is not among the sources.  On
    satisfy the request is "popped from the head" and completed with the
    reply; the n-th satisfy resolves the n-th stage. *)
Definition satisfy (reply : redisReplyPtr) (w : t) : t :=
  match staged w with
  | [] => w
  | req :: rest => mk (active w) rest (resolved w ++ [(req, reply)])
  end.

(** Modelled from the spec: [WriterThread.cc] is not among the sources.
    [clearPending] "satisfies every still-pending request with a nil
    reply". *)
Definition clearPending (w : t) : t :=
  mk (active w) [] (resolved w ++ map (fun req => (req, None)) (staged w)).

End WriterThread.

(** ** [QClient] *)

Module QClient.

(** The static table [QClient::intercepts]. *)
Definition Intercepts : Type := gmap (string * Z) (string * Z).

(** [addIntercept] *)
Definition addIntercept (hostname : string) (port : Z) (host2 : string) (port2 : Z)
           (intercepts : Intercepts) : Intercepts :=
  <[(hostname, port) := (host2, port2)]> intercepts.

(** [clearIntercepts] *)
Definition clearIntercepts (intercepts : Intercepts) : Intercepts := ∅.

(** What surrounds the client: the intercept table of the process, and
    whether a stream opened to an endpoint comes up [ok()]. *)
Record World : Type := mkWorld {
  intercepts : Intercepts;
  reachable : Endpoint -> bool
}.

(** [NetworkStream]: where it was opened to, and [ok()]. *)
Record NetworkStream : Type := mkStream { stream_to : Endpoint; stream_ok : bool }.

(** The members of the class.  [reader] tells whether a [redisReader] is
    allocated; its buffer is outside the model, the replies it produces are
    an argument of [feed]. *)
Record t : Type := mk {
  nextMember : nat;
  members : list Endpoint;
  targetEndpoint : Endpoint;
  redirectedEndpoint : Endpoint;
  redirectionActive : bool;
  transparentRedirects : bool;
  available : bool;
  networkStream : option NetworkStream;
  shutdown : bool;
  reader : bool;
  writerThread : WriterThread.t;
  handshake : option Handshake;
  handshakePending : bool
}.

Definition with_nextMember (n : nat) (q : t) : t :=
  mk n (members q) (targetEndpoint q) (redirectedEndpoint q) (redirectionActive q)
     (transparentRedirects q) (available q) (networkStream q) (shutdown q) (reader q)
     (writerThread q) (handshake q) (handshakePending q).
Definition with_target (e : Endpoint) (q : t) : t :=
  mk (nextMember q) (members q) e (redirectedEndpoint q) (redirectionActive q)
     (transparentRedirects q) (available q) (networkStream q) (shutdown q) (reader q)
     (writerThread q) (handshake q) (handshakePending q).
Definition with_redirected (e : Endpoint) (q : t) : t :=
  mk (nextMember q) (members q) (targetEndpoint q) e (redirectionActive q)
     (transparentRedirects q) (available q) (networkStream q) (shutdown q) (reader q)
     (writerThread q) (handshake q) (handshakePending q).
Definition with_redirectionActive (b : bool) (q : t) : t :=
  mk (nextMember q) (members q) (targetEndpoint q) (redirectedEndpoint q) b
     (transparentRedirects q) (available q) (networkStream q) (shutdown q) (reader q)
     (writerThread q) (handshake q) (handshakePending q).
Definition with_available (b : bool) (q : t) : t :=
  mk (nextMember q) (members q) (targetEndpoint q) (redirectedEndpoint q)
     (redirectionActive q) (transparentRedirects q) b (networkStream q) (shutdown q)
     (reader q) (writerThread q) (handshake q) (handshakePending q).
Definition with_stream (s : option NetworkStream) (q : t) : t :=
  mk (nextMember q) (members q) (targetEndpoint q) (redirectedEndpoint q)
     (redirectionActive q) (transparentRedirects q) (available q) s (shutdown q)
     (reader q) (writerThread q) (handshake q) (handshakePending q).
Definition with_shutdown (b : bool) (q : t) : t :=
  mk (nextMember q) (members q) (targetEndpoint q) (redirectedEndpoint q)
     (redirectionActive q) (transparentRedirects q) (available q) (networkStream q) b
     (reader q) (writerThread q) (handshake q) (handshakePending q).
Definition with_reader (b : bool) (q : t) : t :=
  mk (nextMember q) (members q) (targetEndpoint q) (redirectedEndpoint q)
     (redirectionActive q) (transparentRedirects q) (available q) (networkStream q)
     (shutdown q) b (writerThread q) (handshake q) (handshakePending q).
Definition with_writer (w : WriterThread.t) (q : t) : t :=
  mk (nextMember q) (members q) (targetEndpoint q) (redirectedEndpoint q)
     (redirectionActive q) (transparentRedirects q) (available q) (networkStream q)
     (shutdown q) (reader q) w (handshake q) (handshakePending q).
Definition with_handshakePending (b : bool) (q : t) : t :=
  mk (nextMember q) (members q) (targetEndpoint q) (redirectedEndpoint q)
     (redirectionActive q) (transparentRedirects q) (available q) (networkStream q)
     (shutdown q) (reader q) (writerThread q) (handshake q) b.

(** [execute]: stage the request with the writer (the future is the caller's). *)
Definition execute (req : EncodedRequest) (q : t) : t :=
  with_writer (WriterThread.stage req (writerThread q)) q.

(** One result of [redisReaderGetReply]: [REDIS_ERR], or a reply.  The list
    given to [feed] ends where the reader has no complete reply left. *)
Inductive ReaderResult : Type :=
| ReaderError
| ReaderReply (rr : redisReply).

(** The test "is this a redirect?" of [feed], with the endpoint on success. *)
Definition redirect_target (q : t) (rr : redisReply) : option Endpoint :=
  match rr with
  | REDIS_REPLY_ERROR str =>
      if transparentRedirects q && String.prefix "MOVED " str then
        match Utils.split str " " with
        | [_; _; third] =>
            match Utils.parseServer third with
            | Some redirect =>
                Some (mkEndpoint (Utils.srv_host redirect) (Utils.srv_port redirect))
            | None => None
            end
        | _ => None
        end
      else None
  | _ => None
  end.

(** [feed]: the loop over the replies the reader yields.  The outer [None]
    is the dereference of a null [handshake]. *)
Fixpoint feed (parsed : list ReaderResult) (q : t) : option (bool * t) :=
  match parsed with
  | [] => Some (true, q)
  | ReaderError :: _ => Some (false, q)
  | ReaderReply rr :: rest =>
      let checked :=
        if handshakePending q then
          match handshake q with
          | Some hs =>
              if negb (validateResponse hs rr) then Some None
              else Some (Some (with_handshakePending false q))
          | None => None
          end
        else Some (Some q) in
      match checked with
      | None => None
      | Some None => Some (false, q)
      | Some (Some q1) =>
          match redirect_target q1 rr with
          | Some e => Some (false, with_redirected e q1)
          | None =>
              feed rest (with_writer (WriterThread.satisfy (Some rr) (writerThread q1)) q1)
          end
      end
  end.

(** [cleanup] *)
Definition cleanup (q : t) : t :=
  let q1 := with_writer (WriterThread.deactivate (writerThread q)) q in
  let q2 := with_stream None q1 in
  let q3 := with_reader false q2 in
  with_writer (WriterThread.clearPending (writerThread q3)) q3.

(** [connectTCP] *)
Definition connectTCP (w : World) (q : t) : t :=
  let stream := mkStream (targetEndpoint q) (reachable w (targetEndpoint q)) in
  let q1 := with_stream (Some stream) q in
  if negb (stream_ok stream) then with_available false q1
  else with_writer (WriterThread.activate (targetEndpoint q) (writerThread q1)) q1.

Section WithEndpointOps.
Context `{EndpointOps}.

(** [processRedirection] *)
Definition processRedirection (q : t) : t :=
  let q1 :=
    if negb (Endpoint_empty (redirectedEndpoint q)) then
      with_redirectionActive true (with_target (redirectedEndpoint q) q)
    else if redirectionActive q then with_redirectionActive false q
    else q in
  with_redirected Endpoint_default q1.

(** [discoverIntercept] *)
Definition discoverIntercept (w : World) (q : t) : t :=
  match intercepts w !! (getHost (targetEndpoint q), getPort (targetEndpoint q)) with
  | Some (host2, port2) => with_target (mkEndpoint host2 port2) q
  | None => q
  end.

(** [connect].  [None] is the access [members.getEndpoints()[nextMember]]
    outside of the vector. *)
Definition connect (w : World) (q : t) : option t :=
  let q1 := cleanup q in
  match members q1 !! nextMember q1 with
  | None => None
  | Some e =>
      let q2 := with_target e q1 in
      let q3 := with_nextMember ((nextMember q2 + 1) mod length (members q2))%nat q2 in
      let q4 := processRedirection q3 in
      let q5 := discoverIntercept w q4 in
      let q6 := with_reader true q5 in
      let q7 := connectTCP w q6 in
      let q8 := with_handshakePending false q7 in
      match handshake q8 with
      | Some hs => Some (with_handshakePending true (execute (provideHandshake hs) q8))
      | None => Some q8
      end
  end.

(** The constructors: members and options as given, then [startEventLoop],
    which creates the writer and connects. *)
Definition create (w : World) (members_ : list Endpoint) (redirects : bool)
           (handshake_ : option Handshake) : option t :=
  connect w (mk 0 members_ Endpoint_default Endpoint_default false redirects true
                None false false WriterThread.init handshake_ true).

(** The end of one turn of the outer loop of [eventLoop], reached when the
    inner loop is left (stream not ok, poll failure, dead connection, or
    [feed] returning false): on shutdown [feed(NULL, 0)], which goes through
    the replies still held by the reader, and stop; otherwise sleep, raise
    the backoff below 2048 ms, and [connect()].  The result carries the new
    backoff; [inl] is the end of the thread. *)
Definition eventLoop_turn (w : World) (backoff : Z) (leftover : list ReaderResult)
           (q : t) : option (t + Z * t) :=
  if shutdown q then
    match feed leftover q with
    | Some (_, q1) => Some (inl q1)
    | None => None
    end
  else
    let backoff1 := if backoff <? 2048 then backoff + 1 else backoff in
    match connect w q with
    | Some q1 => Some (inr (backoff1, q1))
    | None => None
    end.

End WithEndpointOps.

(** One pass of the inner loop of [eventLoop] in which [recv] returned bytes
    on a live connection: [true] keeps the loop going, [false] leaves it. *)
Definition eventLoop_recv (parsed : list ReaderResult) (q : t) : option (bool * t) :=
  if shutdown q then Some (false, q) else feed parsed q.

(** The destructor, once the event loop thread has been joined. *)
Definition destroy (q : t) : t := cleanup (with_shutdown true q).

End QClient.

(** ** The specification's wording, as definitions to compare the code with *)

Module Wording.

(** "if value is the empty string, field is removed from the local
    contents; otherwise contents[field] is set to value" *)
Definition apply_pair (c : gmap string string) (kv : string * string)
  : gmap string string :=
  if decide (snd kv = "") then delete (fst kv) c else <[fst kv := snd kv]> c.

Definition is_string (r : redisReply) : bool :=
  match r with
  | REDIS_REPLY_STRING _ => true
  | _ => false
  end.

(** "a two-element array whose first element is an integer revision and
    whose second element is an array of an even number of strings": the
    integer and the strings of such a reply, [None] for every other shape. *)
Definition resilver_shape (reply : redisReplyPtr) : option (Z * list redisReply) :=
  match reply with
  | Some (REDIS_REPLY_ARRAY [REDIS_REPLY_INTEGER n; REDIS_REPLY_ARRAY elems]) =>
      if Nat.even (length elems) && forallb is_string elems
      then Some (n, elems)
      else None
  | _ => None
  end.

(** [contents[key] = value] *)
Definition insert_pair (m : gmap string string) (kv : string * string)
  : gmap string string := <[fst kv := snd kv]> m.

(** [field1, value1, field2, value2, ...] read as pairs. *)
Fixpoint decode_pairs (elems : list redisReply) : list (string * string) :=
  match elems with
  | REDIS_REPLY_STRING k :: REDIS_REPLY_STRING v :: rest => (k, v) :: decode_pairs rest
  | _ => []
  end.

(** The value a list of pairs gives a field: that of its last pair for the
    field. *)
Fixpoint last_value (field : string) (pairs : list (string * string)) : option string :=
  match pairs with
  | [] => None
  | (k, v) :: rest =>
      match last_value field rest with
      | Some v' => Some v'
      | None => if decide (k = field) then Some v else None
      end
  end.

(** "the decoded field-value map" *)
Definition decoded_map (elems : list redisReply) : gmap string string :=
  list_to_map (reverse (decode_pairs elems)).

(** Request [id] is the resilver request the hash issued last. *)
Definition latest_resilver (h : SharedHash.t) (id : nat) : Prop :=
  ClientPort.requests (SharedHash.qcl h) !! id
    = Some (ClientPort.Command ["VHGETALL"; SharedHash.key h])
  /\ forall j r, (id < j)%nat ->
       ClientPort.requests (SharedHash.qcl h) !! j = Some r ->
       HashTrace.is_resilver_request (SharedHash.key h) r = false.

(** The hash awaits no reply, or that of its latest resilver request. *)
Definition awaits_latest (h : SharedHash.t) : Prop :=
  forall id, SharedHash.futureReply h = Some id -> latest_resilver h id.

(** "if the resulting endpoint has an entry in the process-wide intercept
    table, the mapped endpoint is used instead" *)
Definition intercepted (w : QClient.World) (e : Endpoint) : Endpoint :=
  match QClient.intercepts w !! (getHost e, getPort e) with
  | Some (host2, port2) => mkEndpoint host2 port2
  | None => e
  end.

(** The error text has "the `MOVED <slot> host:port` form": three
    space-separated tokens, the third an endpoint. *)
Definition moved_endpoint (str : string) : option Endpoint :=
  match Utils.split str " " with
  | [_; _; third] =>
      match Utils.parseServer third with
      | Some srv => Some (mkEndpoint (Utils.srv_host srv) (Utils.srv_port srv))
      | None => None
      end
  | _ => None
  end.

End Wording.

(** ** Concrete states used in examples *)

Module Examples.

Definition hash0 : SharedHash.t := SharedHash.create ClientPort.init "K".

(** A resilver reply with revision [n] and the given fields. *)
Definition vhgetall (n : Z) (elems : list redisReply) : redisReplyPtr :=
  Some (REDIS_REPLY_ARRAY [REDIS_REPLY_INTEGER n; REDIS_REPLY_ARRAY elems]).

Definition hash7 : SharedHash.t :=
  SharedHash.handleResponse
    (vhgetall 7 [REDIS_REPLY_STRING "a"; REDIS_REPLY_STRING "1"]) hash0.

(** The hash after a resilver reply whose integer is -2. *)
Definition hash_top : SharedHash.t :=
  SharedHash.handleResponse (vhgetall (-2) []) hash0.

Definition A : Endpoint := mkEndpoint "A" 6379.
Definition B : Endpoint := mkEndpoint "B" 6380.

Definition world0 : QClient.World := QClient.mkWorld ∅ (fun _ => true).

Definition world1 : QClient.World :=
  QClient.mkWorld (QClient.addIntercept "B" 6380 "localhost" 7777 ∅) (fun _ => true).

Definition auth : Handshake :=
  mkHandshake ["AUTH"; "pw"]
    (fun r => match r with
              | REDIS_REPLY_STATUS "OK" => true
              | _ => false
              end).

(** A client before its first [connect]. *)
Definition fresh (redirects : bool) (hs : option Handshake) : QClient.t :=
  QClient.mk 0 [A; B] Endpoint_default Endpoint_default false redirects true
             None false false WriterThread.init hs true.

(** The client after a [connect] in [world0]. *)
Definition connected (q : QClient.t) : QClient.t :=
  match QClient.connect world0 q with
  | Some q' => q'
  | None => q
  end.

(** Connected to [A], no handshake, one request staged. *)
Definition plain_busy : QClient.t :=
  QClient.execute ["GET"; "x"] (connected (fresh true None)).

(** Connected to [A] with the handshake staged, then one user request. *)
Definition auth_busy : QClient.t :=
  QClient.execute ["GET"; "x"] (connected (fresh true (Some auth))).

End Examples.

(** ** [QClient::HandleResponse]: the synchronous wrapper with retries *)

Module SyncCall.

(** How [HandleResponse] ends: it returns the reply, or throws
    "NULL response after 3 retries", or throws "Error REDIS_REPLY_ERROR". *)
Inductive Outcome : Type :=
| Returned (reply : redisReplyPtr)
| ThrowNull
| ThrowError.

(** The [do ... while (num_retries != 0)] loop.  [answers i] is the value
    the [i]-th future resolves with: [answers 0] for the future passed in,
    [answers (S i)] for the future of the [i]-th [execute(cmd)] of the loop.
    [num_retries] is the counter before the body decrements it (it starts
    at 3, so the case 0 is never entered), [attempt] the index of the future
    held in [resp].  The result is the last reply read, the counter, and the
    number of times [cmd] was executed. *)
Fixpoint retry_loop (answers : nat -> redisReplyPtr) (num_retries : nat)
         (attempt : nat) : redisReplyPtr * nat * nat :=
  match num_retries with
  | O => (None, O, attempt)
  | S remaining =>
      match answers attempt with
      | None =>
          match remaining with
          | O => (None, O, S attempt)
          | S _ => retry_loop answers remaining (S attempt)
          end
      | Some reply => (Some reply, remaining, attempt)
      end
  end.

(** [HandleResponse(resp, cmd)]: the outcome, and how many times [cmd] was
    executed again. *)
Definition HandleResponse (answers : nat -> redisReplyPtr) : Outcome * nat :=
  let '(reply, num_retries, executed) := retry_loop answers 3 0 in
  match reply with
  | None => if Nat.eqb num_retries 0 then (ThrowNull, executed)
            else (Returned None, executed)
  | Some (REDIS_REPLY_ERROR str) => (ThrowError, executed)
  | Some r => (Returned (Some r), executed)
  end.

End SyncCall.

(** ** [QClient::eventLoop] *)

Module EventLoop.

(** [RecvStatus]: what [NetworkStream::recv] reports. *)
Record RecvStatus : Type := mkStatus {
  connectionAlive : bool;
  errcode : Z;
  bytesRead : Z
}.

(** [poll]: a non-negative result, a negative one with [errno == EINTR],
    or a negative one with another [errno]. *)
Inductive PollResult : Type := PollReady | PollInterrupted | PollFailed.

(** What the outside contributes to one pass of the inner loop: the result
    of [poll] (looked at only when [poll] is called), whether the destructor
    has set [shutdown] by the time the flag is read, what [recv] reports,
    and the replies the reader yields from the bytes received. *)
Record Pass : Type := mkPass {
  poll_result : PollResult;
  shutdown_request : bool;
  recv_status : RecvStatus;
  recv_parsed : list QClient.ReaderResult
}.

(** The locals of [eventLoop] next to the client: [backoff] in
    milliseconds, the [status] of the last [recv], and whether the
    [unique_lock] of the turn holds the mutex. *)
Record LoopState : Type := mkLoop {
  client : QClient.t;
  backoff : Z;
  status : RecvStatus;
  owns_lock : bool
}.

(** Why the inner loop was left; [Waiting] when it was not (the thread sits
    in [poll] with nothing more arriving), [NullHandshake] for the
    dereference of a null [handshake] in [feed]. *)
Inductive InnerExit : Type :=
| StreamNotOk
| PollBroke
| ShutdownSeen
| ConnectionDied
| FeedFailed
| Waiting
| NullHandshake.

(** [networkStream->ok()], as recorded when the stream was opened. *)
Definition stream_is_ok (q : QClient.t) : bool :=
  match QClient.networkStream q with
  | Some stream => QClient.stream_ok stream
  | None => false
  end.

(** [while (networkStream->ok()) { ... }] *)
Fixpoint inner_loop (passes : list Pass) (s : LoopState) : InnerExit * LoopState :=
  if negb (stream_is_ok (client s)) then (StreamNotOk, s)
  else
    match passes with
    | [] => (Waiting, s)
    | p :: rest =>
        let s1 := mkLoop (client s) (backoff s) (status s) false in
        let poll_broke :=
          if bytesRead (status s1) <=? 0 then
            match poll_result p with
            | PollFailed => true
            | _ => false
            end
          else false in
        if poll_broke then (PollBroke, s1)
        else
          let q2 := QClient.with_shutdown
                      (QClient.shutdown (client s1) || shutdown_request p) (client s1) in
          let s2 := mkLoop q2 (backoff s1) (status s1) true in
          if QClient.shutdown q2 then (ShutdownSeen, s2)
          else
            let s3 := mkLoop q2 1 (recv_status p) true in
            if negb (connectionAlive (status s3)) then (ConnectionDied, s3)
            else if 0 <? bytesRead (status s3) then
              match QClient.feed (recv_parsed p) q2 with
              | None => (NullHandshake, s3)
              | Some (false, q4) => (FeedFailed, mkLoop q4 1 (recv_status p) true)
              | Some (true, q4) => inner_loop rest (mkLoop q4 1 (recv_status p) true)
              end
            else inner_loop rest s3
    end.

(** What the outside contributes to one turn of the outer loop: the passes
    of the inner loop, whether [shutdown] has been set by the time it is read
    after the inner loop, the replies still held by the reader then, and the
    world the next [connect] finds. *)
Record Turn : Type := mkTurn {
  passes : list Pass;
  shutdown_after : bool;
  leftover : list QClient.ReaderResult;
  world : QClient.World
}.

(** How a turn ends: the thread ends ([Ended]); it has slept for [slept]
    milliseconds and connected again ([Reconnected], with the new backoff);
    it is still inside the inner loop ([Blocked]); [lock.unlock()] was
    called on a lock that does not hold the mutex ([UnlockNotOwned]); or a
    null pointer or an index outside the members was used ([Undefined]). *)
Inductive TurnResult : Type :=
| Ended (q : QClient.t)
| Reconnected (slept : Z) (backoff' : Z) (q : QClient.t)
| Blocked (s : LoopState)
| UnlockNotOwned (q : QClient.t)
| Undefined.

Section WithEndpointOps.
Context `{EndpointOps}.

(** The end of a turn, after the inner loop was left in state [s]: the
    test of [shutdown], [lock.unlock()], the sleep and [connect()]. *)
Definition turn_end (tn : Turn) (s : LoopState) : TurnResult :=
  let q1 := QClient.with_shutdown
              (QClient.shutdown (client s) || shutdown_after tn) (client s) in
  if negb (QClient.shutdown q1) && negb (owns_lock s) then UnlockNotOwned q1
  else
    match QClient.eventLoop_turn (world tn) (backoff s) (leftover tn) q1 with
    | Some (inl q2) => Ended q2
    | Some (inr (backoff', q2)) => Reconnected (backoff s) backoff' q2
    | None => Undefined
    end.

(** One turn of [while (true) { ... }]. *)
Definition turn (tn : Turn) (backoff0 : Z) (q : QClient.t) : TurnResult :=
  match QClient.networkStream q with
  | None => Undefined
  | Some _ =>
      let '(reason, s) :=
        inner_loop (passes tn) (mkLoop q backoff0 (mkStatus true 0 0) true) in
      match reason with
      | Waiting => Blocked s
      | NullHandshake => Undefined
      | _ => turn_end tn s
      end
  end.

(** The thread: [backoff] starts at the value given (1 in the code), and the
    turns follow each other as long as each ends by reconnecting.  The
    result lists the sleeps in order and tells how the last turn ended
    ([None]: all the turns given have reconnected). *)
Fixpoint eventLoop (turns : list Turn) (backoff0 : Z) (q : QClient.t)
  : list Z * option TurnResult :=
  match turns with
  | [] => ([], None)
  | tn :: rest =>
      match turn tn backoff0 q with
      | Reconnected slept backoff' q' =>
          let '(sleeps, final) := eventLoop rest backoff' q' in
          (slept :: sleeps, final)
      | other => ([], Some other)
      end
  end.

End WithEndpointOps.

End EventLoop.

(** ** Notions used to state what the code does *)

Module Observations.

(** The requests a writer has been given, in the order they were staged:
    those resolved so far, then those still staged. *)
Definition history (w : WriterThread.t) : list EncodedRequest :=
  map fst (WriterThread.resolved w) ++ WriterThread.staged w.

(** A reply [feed] hands straight to the writer in state [q]: not a
    redirect. *)
Definition ordinary (q : QClient.t) (rr : redisReply) : Prop :=
  QClient.redirect_target q rr = None.

(** What a revision's updates leave in a field that had [old]: the value of
    the last pair for the field, absent if that value is empty; [old] if no
    pair names the field. *)
Definition after_updates (old : option string) (field : string)
           (updates : list (string * string)) : option string :=
  match Wording.last_value field updates with
  | Some v => if decide (v = "") then None else Some v
  | None => old
  end.

(** The replies of the client are all for requests it has been given. *)
Definition replies_issued (c : ClientPort.t) : Prop :=
  forall id r, ClientPort.replies c !! id = Some r ->
               (id < length (ClientPort.requests c))%nat.

(** Feeding the revisions [v+1, v+2, ...] one after the other, each with
    its updates; the result tells whether all were accepted. *)
Fixpoint feed_in_sequence (batches : list (list (string * string)))
         (h : SharedHash.t) : bool * SharedHash.t :=
  match batches with
  | [] => (true, h)
  | updates :: rest =>
      match SharedHash.feedRevision (SharedHash.currentVersion h + 1) updates h with
      | (true, h1) => feed_in_sequence rest h1
      | (false, h1) => (false, h1)
      end
  end.

(** [n] connection attempts in a row, none of them with a redirect pending
    in between; the targets, in order. *)
Fixpoint connect_times `{EndpointOps} (w : QClient.World) (n : nat) (q : QClient.t)
  : option (list Endpoint * QClient.t) :=
  match n with
  | O => Some ([], q)
  | S n' =>
      match QClient.connect w q with
      | Some q1 =>
          match connect_times w n' q1 with
          | Some (targets, q2) => Some (QClient.targetEndpoint q1 :: targets, q2)
          | None => None
          end
      | None => None
      end
  end.

End Observations.

(** ** Runs of the event loop used in examples *)

Module Scenarios.

(** The client a turn leaves behind. *)
Definition after_turn (tn : EventLoop.Turn) (b : Z) (q : QClient.t) : QClient.t :=
  match EventLoop.turn tn b q with
  | EventLoop.Reconnected _ _ q' => q'
  | EventLoop.Ended q' => q'
  | EventLoop.UnlockNotOwned q' => q'
  | _ => q
  end.

(** [poll] returns, [recv] reports the connection dead. *)
Definition turn_dies : EventLoop.Turn :=
  EventLoop.mkTurn
    [EventLoop.mkPass EventLoop.PollReady false (EventLoop.mkStatus false 0 0) []]
    false [] Examples.world0.

(** No endpoint can be reached. *)
Definition world_down : QClient.World := QClient.mkWorld ∅ (fun _ => false).

Definition turn_down : EventLoop.Turn := EventLoop.mkTurn [] false [] world_down.

(** A client whose last connection attempt has failed. *)
Definition client_down : QClient.t :=
  match QClient.connect world_down (Examples.fresh true None) with
  | Some q => q
  | None => Examples.fresh true None
  end.

(** A client with a handshake whose connection attempt has failed. *)
Definition auth_down : QClient.t :=
  match QClient.connect world_down (Examples.fresh true (Some Examples.auth)) with
  | Some q => q
  | None => Examples.fresh true (Some Examples.auth)
  end.

(** [poll] fails with an error other than EINTR. *)
Definition pass_poll_fails : EventLoop.Pass :=
  EventLoop.mkPass EventLoop.PollFailed false (EventLoop.mkStatus true 0 0) [].

Definition turn_poll_fails : EventLoop.Turn :=
  EventLoop.mkTurn [pass_poll_fails] false [] Examples.world0.

(** The destructor sets [shutdown] while the loop waits in [poll]. *)
Definition turn_shutdown : EventLoop.Turn :=
  EventLoop.mkTurn
    [EventLoop.mkPass EventLoop.PollReady true (EventLoop.mkStatus true 0 0) []]
    false [] Examples.world0.

End Scenarios.

(** * Properties *)

(** ** Machine integers *)

Lemma wrap64_range z : is_u64 (wrap64 z).
Proof. unfold is_u64, wrap64, two64. apply Z.mod_pos_bound. lia. Qed.

Lemma wrap64_small z : is_u64 z -> wrap64 z = z.
Proof. unfold is_u64, wrap64. intros Hz. apply Z.mod_small. exact Hz. Qed.

(** Below the last two values of [uint64_t], adding 2 does not wrap. *)
Lemma wrap64_plus2 v : 0 <= v -> v + 2 < two64 -> wrap64 (v + 2) = v + 2.
Proof. intros H0 H2. apply wrap64_small. unfold is_u64. lia. Qed.

(** At the last two values it wraps to 0 or 1. *)
Lemma wrap64_plus2_top v : is_u64 v -> two64 <= v + 2 -> wrap64 (v + 2) = v + 2 - two64.
Proof.
  unfold is_u64, wrap64. intros Hv Htop.
  symmetry. apply Z.mod_unique with (q := 1); unfold two64 in *; lia.
Qed.

(** ** [SharedHash]: feeding revisions *)

Section FeedRevision.
Import SharedHash.

Lemma feedSingleKeyValue_apply_pair k v c :
  feedSingleKeyValue k v c = Wording.apply_pair c (k, v).
Proof.
  unfold feedSingleKeyValue, Wording.apply_pair. simpl.
  destruct (String.eqb_spec v ""); case_decide; congruence.
Qed.

Lemma feedAll_app us1 us2 c : feedAll (us1 ++ us2) c = feedAll us2 (feedAll us1 c).
Proof. unfold feedAll. apply fold_left_app. Qed.

Lemma feedAll_foldl us c : feedAll us c = foldl Wording.apply_pair c us.
Proof.
  revert c. induction us as [|[k v] us IH]; intros c; [reflexivity|].
  unfold feedAll in *. simpl. rewrite IH. f_equal.
  apply feedSingleKeyValue_apply_pair.
Qed.

(** The assertion [qclient_assert(revision == currentVersion+1)] holds
    whenever it is reached, so it is not part of the model. *)
Lemma feedRevision_assertion revision h :
  wf h -> is_u64 revision ->
  (revision <=? currentVersion h) = false ->
  (revision >=? wrap64 (currentVersion h + 2)) = false ->
  revision = wrap64 (currentVersion h + 1) /\ revision = currentVersion h + 1.
Proof.
  unfold wf. intros Hv Hr H1 H2.
  apply Z.leb_gt in H1. rewrite Z.geb_leb in H2. apply Z.leb_gt in H2.
  destruct (Z_lt_le_dec (currentVersion h + 2) two64) as [Hlow|Htop].
  - rewrite wrap64_plus2 in H2 by (unfold is_u64 in Hv; lia).
    assert (revision = currentVersion h + 1) as -> by lia.
    split; [|reflexivity]. symmetry. apply wrap64_small.
    unfold is_u64 in *. lia.
  - rewrite wrap64_plus2_top in H2 by assumption.
    unfold is_u64 in *. lia.
Qed.

(** Below the top of the range, the successor revision is applied. *)
Lemma feedRevision_accepts h updates :
  0 <= currentVersion h -> currentVersion h + 2 < two64 ->
  feedRevision (currentVersion h + 1) updates h
  = (true, with_version (currentVersion h + 1)
             (with_contents (feedAll updates (contents h)) h)).
Proof.
  intros H0 H2. unfold feedRevision.
  rewrite wrap64_plus2 by assumption.
  replace (currentVersion h + 1 <=? currentVersion h) with false
    by (symmetry; apply Z.leb_gt; lia).
  replace (currentVersion h + 1 >=? currentVersion h + 2) with false
    by (symmetry; rewrite Z.geb_leb; apply Z.leb_gt; lia).
  reflexivity.
Qed.

(** A revision that is not the successor is refused: only the log grows. *)
Lemma feedRevision_rejects revision updates h :
  wf h -> is_u64 revision ->
  revision <= currentVersion h \/ currentVersion h + 2 <= revision ->
  exists line, feedRevision revision updates h
               = (false, QCLIENT_LOG (fst line) (snd line) h).
Proof.
  unfold wf. intros Hv Hr Hcase. unfold feedRevision.
  destruct (revision <=? currentVersion h) eqn:H1.
  - eexists (_, _). reflexivity.
  - apply Z.leb_gt in H1.
    destruct Hcase as [Hle|Hgap]; [lia|].
    assert (currentVersion h + 2 < two64) by (unfold is_u64 in Hr; lia).
    rewrite wrap64_plus2 by (unfold is_u64 in Hv; lia).
    replace (revision >=? currentVersion h + 2) with true
      by (symmetry; rewrite Z.geb_leb; apply Z.leb_le; lia).
    eexists (_, _). reflexivity.
Qed.

(** An accepted feed: what the guards have established, and the new state. *)
Lemma feedRevision_true revision updates h h' :
  feedRevision revision updates h = (true, h') ->
  currentVersion h < revision
  /\ h' = with_version revision (with_contents (feedAll updates (contents h)) h).
Proof.
  unfold feedRevision.
  destruct (revision <=? currentVersion h) eqn:H1; [discriminate|].
  destruct (revision >=? wrap64 (currentVersion h + 2)); [discriminate|].
  intros [= <-]. apply Z.leb_gt in H1. split; [lia|reflexivity].
Qed.

(** No call of [feedRevision] lowers the version. *)
Lemma feedRevision_version_le revision updates h :
  currentVersion h <= currentVersion (snd (feedRevision revision updates h)).
Proof.
  unfold feedRevision.
  destruct (revision <=? currentVersion h) eqn:H1; [simpl; lia|].
  destruct (revision >=? wrap64 (currentVersion h + 2)); [simpl; lia|].
  apply Z.leb_gt in H1. simpl. lia.
Qed.

End FeedRevision.

(** C1 (as the code behaves at the top of the range).  A resilver reply
    whose integer is -2 leaves the hash at version 2^64 - 2; fed the next
    revision 2^64 - 1, [feedRevision] computes [currentVersion + 2] as 0 in
    [uint64_t], takes the "out of date" branch and returns false, with
    contents and version as before. *)
Theorem C1_successor_refused_at_top :
  SharedHash.wf Examples.hash_top
  /\ SharedHash.currentVersion Examples.hash_top = two64 - 2
  /\ two64 - 1 = SharedHash.currentVersion Examples.hash_top + 1
  /\ is_u64 (two64 - 1)
  /\ SharedHash.feedRevision (two64 - 1) [("a", "1")] Examples.hash_top
     = (false, SharedHash.QCLIENT_LOG kWarn (MsgOutOfDate (two64 - 1) (two64 - 2))
                 Examples.hash_top).
Proof.
  assert (Hv : SharedHash.currentVersion Examples.hash_top = two64 - 2)
    by (vm_compute; reflexivity).
  assert (Hr : is_u64 (two64 - 1)) by (unfold is_u64, two64; lia).
  split; [unfold SharedHash.wf; rewrite Hv; unfold is_u64, two64; lia|].
  split; [exact Hv|].
  split; [rewrite Hv; lia|].
  split; [exact Hr|].
  unfold SharedHash.feedRevision. rewrite Hv.
  replace (two64 - 1 <=? two64 - 2) with false by (vm_compute; reflexivity).
  replace (two64 - 1 >=? wrap64 (two64 - 2 + 2)) with true by (vm_compute; reflexivity).
  reflexivity.
Qed.

(** C7.  An accepted feed (the call returns true, which it does only for
    [revision = currentVersion + 1]) applies its pairs one after the other:
    a pair with an empty value removes its field from the contents, any
    other pair sets the field to the value, and nothing else changes. *)
Theorem C7_accepted_feed_applies_each_pair
        (revision : Z) (updates : list (string * string)) (h h' : SharedHash.t) :
  SharedHash.wf h -> is_u64 revision ->
  SharedHash.feedRevision revision updates h = (true, h') ->
  revision = SharedHash.currentVersion h + 1
  /\ SharedHash.contents h' = foldl Wording.apply_pair (SharedHash.contents h) updates
  /\ forall (i : nat) (field value : string),
       updates !! i = Some (field, value) ->
       let before := SharedHash.feedAll (take i updates) (SharedHash.contents h) in
       let after := SharedHash.feedAll (take (S i) updates) (SharedHash.contents h) in
       (value = "" -> after = delete field before /\ after !! field = None)
       /\ (value <> "" -> after = <[field := value]> before
                          /\ after !! field = Some value).
Proof.
  intros Hwf Hrev Hfeed.
  assert (Hguards := Hfeed). unfold SharedHash.feedRevision in Hguards.
  destruct (revision <=? SharedHash.currentVersion h) eqn:H1; [discriminate|].
  destruct (revision >=? wrap64 (SharedHash.currentVersion h + 2)) eqn:H2;
    [discriminate|].
  clear Hguards.
  destruct (feedRevision_assertion revision h Hwf Hrev H1 H2) as [_ Hsucc].
  destruct (feedRevision_true _ _ _ _ Hfeed) as [_ ->].
  split; [exact Hsucc|]. split; [simpl; apply feedAll_foldl|].
  intros i field value Hi before after. subst before after.
  rewrite (take_S_r _ _ _ Hi), feedAll_app.
  unfold SharedHash.feedAll at 1. simpl.
  rewrite feedSingleKeyValue_apply_pair. unfold Wording.apply_pair. simpl.
  split; intros Hv; case_decide; try congruence.
  - split; [reflexivity|apply lookup_delete_eq].
  - split; [reflexivity|apply lookup_insert_eq].
Qed.

(** C7 at version 7 with contents {a: "1"}: revision 8 sets [b] and then
    deletes [a]. *)
Lemma C7_witness :
  SharedHash.wf Examples.hash7 /\ is_u64 8
  /\ SharedHash.feedRevision 8 [("b", "3"); ("a", "")] Examples.hash7
     = (true, snd (SharedHash.feedRevision 8 [("b", "3"); ("a", "")] Examples.hash7))
  /\ SharedHash.contents
       (snd (SharedHash.feedRevision 8 [("b", "3"); ("a", "")] Examples.hash7))
     = foldl Wording.apply_pair (SharedHash.contents Examples.hash7)
             [("b", "3"); ("a", "")].
Proof.
  assert (Hwf : SharedHash.wf Examples.hash7) by (vm_compute; split; discriminate || reflexivity).
  assert (Hrev : is_u64 8) by (vm_compute; split; discriminate || reflexivity).
  assert (Hfeed : SharedHash.feedRevision 8 [("b", "3"); ("a", "")] Examples.hash7
     = (true, snd (SharedHash.feedRevision 8 [("b", "3"); ("a", "")] Examples.hash7)))
    by reflexivity.
  split; [exact Hwf|]. split; [exact Hrev|]. split; [exact Hfeed|].
  exact (proj1 (proj2 (C7_accepted_feed_applies_each_pair _ _ _ _ Hwf Hrev Hfeed))).
Defined.

(** The scenario of the specification: version 8 with {a: "2"}, revision 9
    carrying (a, "") gives version 9 without [a]. *)
Example deletion_scenario :
  let h8 := snd (SharedHash.feedRevision 8 [("a", "2")] Examples.hash7) in
  let r := SharedHash.feedRevision 9 [("a", "")] h8 in
  SharedHash.contents h8 !! "a" = Some "2"
  /\ fst r = true
  /\ SharedHash.currentVersion (snd r) = 9
  /\ SharedHash.contents (snd r) !! "a" = None.
Proof. vm_compute. repeat split. Qed.

(** ** [SharedHash]: the version along a sequence of updates *)

Section Versions.
Import SharedHash HashTrace.

Lemma run_updates_app us1 us2 h :
  run_updates (us1 ++ us2) h = run_updates us2 (run_updates us1 h).
Proof. unfold run_updates. apply fold_left_app. Qed.

Lemma resilver_version revision newContents h :
  currentVersion (resilver revision newContents h) = revision.
Proof. reflexivity. Qed.

Lemma resilver_contents revision newContents h :
  contents (resilver revision newContents h) = newContents.
Proof. reflexivity. Qed.

Lemma apply_update_version_le u h :
  resilvers_not_older [u] h -> currentVersion h <= currentVersion (apply_update u h).
Proof.
  destruct u as [revision updates|revision newContents]; simpl.
  - intros _. apply feedRevision_version_le.
  - intros [Hle _]. exact Hle.
Qed.

Lemma resilvers_not_older_app us1 us2 h :
  resilvers_not_older (us1 ++ us2) h ->
  resilvers_not_older us1 h /\ resilvers_not_older us2 (run_updates us1 h).
Proof.
  revert h. induction us1 as [|u us1 IH]; intros h; simpl.
  - intros Hall. split; [exact I|exact Hall].
  - intros [Hu Hrest]. destruct (IH _ Hrest) as [H1 H2].
    split; [split; assumption|exact H2].
Qed.

Lemma run_updates_version_le us h :
  resilvers_not_older us h -> currentVersion h <= currentVersion (run_updates us h).
Proof.
  revert h. induction us as [|u us IH]; intros h; simpl.
  - intros _. lia.
  - intros [Hu Hrest]. specialize (IH _ Hrest).
    assert (currentVersion h <= currentVersion (apply_update u h)).
    { apply apply_update_version_le. simpl. split; [exact Hu|exact I]. }
    unfold run_updates in *. lia.
Qed.

End Versions.

(** C2, as stated, fails: a hash resilvered at revision 7 and then
    resilvered with a reply of revision 3 goes from version 7 to version 3.
    [resilver] stores the revision it is given without comparing it. *)
Lemma C2_resilver_lowers_version :
  let before := HashTrace.run_updates [HashTrace.Resilver 7 {["a" := "1"]}] Examples.hash0 in
  let after := HashTrace.run_updates [HashTrace.Resilver 3 ∅] before in
  SharedHash.currentVersion before = 7
  /\ SharedHash.currentVersion after = 3
  /\ ~ (SharedHash.currentVersion before <= SharedHash.currentVersion after).
Proof. simpl. split; [reflexivity|]. split; [reflexivity|]. lia. Qed.

(** C2, amended.  [feedRevision] never lowers the version, and [resilver]
    sets it to the revision of the reply; so along every sequence of the two
    in which no resilver carries a revision below the version of the moment,
    each version observed is at least the ones observed before it. *)
Theorem C2_version_monotone_unless_older_resilver
        (us1 us2 : list HashTrace.Update) (h : SharedHash.t) :
  HashTrace.resilvers_not_older (us1 ++ us2) h ->
  SharedHash.currentVersion (HashTrace.run_updates us1 h)
  <= SharedHash.currentVersion (HashTrace.run_updates (us1 ++ us2) h).
Proof.
  intros Hall. rewrite run_updates_app.
  apply run_updates_version_le.
  apply (resilvers_not_older_app us1 us2 h Hall).
Qed.

(** C2 amended, on the scenario of the specification: resilver at 7, feed 8,
    feed 10 (refused), resilver at 11. *)
Lemma C2_witness :
  let us1 := [HashTrace.Resilver 7 {["a" := "1"]}; HashTrace.FeedRevision 8 [("a", "2")]] in
  let us2 := [HashTrace.FeedRevision 10 [("b", "3")];
              HashTrace.Resilver 11 (<["c" := "4"]> {["a" := "2"]})] in
  HashTrace.resilvers_not_older (us1 ++ us2) Examples.hash0
  /\ SharedHash.currentVersion (HashTrace.run_updates us1 Examples.hash0)
     <= SharedHash.currentVersion (HashTrace.run_updates (us1 ++ us2) Examples.hash0).
Proof.
  intros us1 us2.
  assert (Hall : HashTrace.resilvers_not_older (us1 ++ us2) Examples.hash0).
  { subst us1 us2. simpl. repeat split; lia. }
  split; [exact Hall|].
  exact (C2_version_monotone_unless_older_resilver us1 us2 Examples.hash0 Hall).
Defined.

(** ** [SharedHash]: resilver replies *)

Section HandleResponse.
Import SharedHash Wording.

Lemma even_mod2 (n : nat) : Nat.even n = (n mod 2 =? 0)%nat.
Proof.
  pose proof (Nat.div_mod_eq n 2) as Hdiv.
  pose proof (Nat.mod_upper_bound n 2 ltac:(lia)) as Hlt.
  destruct (Nat.even n) eqn:He; symmetry.
  - apply Nat.even_spec in He. destruct He as [m Hm].
    apply Nat.eqb_eq. lia.
  - apply Nat.eqb_neq. intros Hz.
    assert (Nat.even n = true) as Habs; [|congruence].
    apply Nat.even_spec. exists (n / 2)%nat. lia.
Qed.

(** The loop of [handleResponse] inserts the decoded pairs in order, and
    gives up exactly when an element is not a string. *)
Lemma collect_pairs_spec (elems : list redisReply) :
  (forall acc, Nat.even (length elems) = true ->
     collect_pairs elems acc
     = if forallb is_string elems
       then Some (foldl insert_pair acc (decode_pairs elems)) else None)
  /\ (forall x acc, Nat.even (length (x :: elems)) = true ->
     collect_pairs (x :: elems) acc
     = if forallb is_string (x :: elems)
       then Some (foldl insert_pair acc (decode_pairs (x :: elems))) else None).
Proof.
  induction elems as [|y rest [IHrest IHcons]].
  - split; [reflexivity|]. intros x acc Hodd. discriminate Hodd.
  - split; [intros acc Heven; apply IHcons; exact Heven|].
    intros x acc Heven.
    change (Nat.even (length rest) = true) in Heven.
    destruct x; try reflexivity.
    destruct y; try reflexivity.
    simpl. apply IHrest. exact Heven.
Qed.

Lemma foldl_insert_pair pairs :
  foldl insert_pair ∅ pairs = list_to_map (reverse pairs).
Proof.
  induction pairs as [|[k v] pairs IH] using rev_ind; [reflexivity|].
  rewrite foldl_snoc, reverse_snoc, list_to_map_cons, IH. reflexivity.
Qed.

Lemma lookup_decoded pairs field :
  (list_to_map (reverse pairs) : gmap string string) !! field
  = last_value field pairs.
Proof.
  induction pairs as [|[k v] rest IH]; [apply lookup_empty|].
  rewrite reverse_cons, list_to_map_app, lookup_union, IH. simpl.
  rewrite lookup_insert, lookup_empty.
  destruct (last_value field rest) as [v'|]; case_decide; reflexivity.
Qed.

(** The decoded pairs account for every element of a well-formed array. *)
Lemma decode_pairs_complete (elems : list redisReply) :
  (Nat.even (length elems) = true -> forallb is_string elems = true ->
     elems = flat_map (fun kv => [REDIS_REPLY_STRING (fst kv); REDIS_REPLY_STRING (snd kv)])
                      (decode_pairs elems))
  /\ (forall x, Nat.even (length (x :: elems)) = true ->
        forallb is_string (x :: elems) = true ->
        x :: elems
        = flat_map (fun kv => [REDIS_REPLY_STRING (fst kv); REDIS_REPLY_STRING (snd kv)])
                   (decode_pairs (x :: elems))).
Proof.
  induction elems as [|y rest [IHrest IHcons]].
  - split; [reflexivity|]. intros x Hodd. discriminate Hodd.
  - split; [apply IHcons|].
    intros x Heven Hall.
    change (Nat.even (length rest) = true) in Heven.
    destruct x; try discriminate Hall.
    destruct y; try discriminate Hall.
    simpl in *. f_equal. f_equal. apply IHrest; assumption.
Qed.

Lemma handleResponse_well_formed n elems h :
  Nat.even (length elems) && forallb is_string elems = true ->
  handleResponse (Some (REDIS_REPLY_ARRAY [REDIS_REPLY_INTEGER n; REDIS_REPLY_ARRAY elems])) h
  = resilver (wrap64 n) (decoded_map elems) h.
Proof.
  intros Hshape. apply andb_true_iff in Hshape as [Heven Hall].
  unfold handleResponse.
  rewrite <- even_mod2, Heven. simpl.
  rewrite (proj1 (collect_pairs_spec elems) ∅ Heven), Hall.
  unfold decoded_map. rewrite foldl_insert_pair. reflexivity.
Qed.

Lemma handleResponse_ill_formed reply h :
  resilver_shape reply = None -> handleResponse reply h = parseError reply h.
Proof.
  unfold resilver_shape, handleResponse.
  destruct reply as [[s|l|n| |s|s]|]; try reflexivity.
  destruct l as [|e0 [|e1 [|e2 l]]]; try reflexivity.
  destruct e0; try reflexivity.
  destruct e1 as [s|elems|n'| |s|s]; try reflexivity.
  rewrite <- even_mod2.
  destruct (Nat.even (length elems)) eqn:Heven; [|reflexivity].
  simpl. rewrite (proj1 (collect_pairs_spec elems) ∅ Heven).
  destruct (forallb is_string elems); [discriminate|reflexivity].
Qed.

End HandleResponse.

(** C6.  A reply that is a two-element array of an integer and an array of
    an even number of strings replaces the contents by the decoded map (each
    field with the value of its last pair) and sets the version to the
    revision, the integer of the reply as [uint64_t]; for every other reply,
    the null pointer and nil included, a warning is logged and contents and
    version stay as they are. *)
Theorem C6_handleResponse_by_shape (reply : redisReplyPtr) (h : SharedHash.t) :
  let h' := SharedHash.handleResponse reply h in
  match Wording.resilver_shape reply with
  | Some (n, elems) =>
      SharedHash.contents h' = Wording.decoded_map elems
      /\ (forall field, SharedHash.contents h' !! field
                        = Wording.last_value field (Wording.decode_pairs elems))
      /\ elems = flat_map (fun kv => [REDIS_REPLY_STRING (fst kv); REDIS_REPLY_STRING (snd kv)])
                          (Wording.decode_pairs elems)
      /\ SharedHash.currentVersion h' = wrap64 n
      /\ (is_u64 n -> SharedHash.currentVersion h' = n)
  | None =>
      SharedHash.contents h' = SharedHash.contents h
      /\ SharedHash.currentVersion h' = SharedHash.currentVersion h
      /\ SharedHash.logger h'
         = SharedHash.logger h ++ [(kWarn, MsgCouldNotParse reply)]
  end.
Proof.
  intros h'. subst h'.
  destruct (Wording.resilver_shape reply) as [[n elems]|] eqn:Hshape.
  - unfold Wording.resilver_shape in Hshape.
    destruct reply as [[s|l|n0| |s|s]|]; try discriminate.
    destruct l as [|e0 [|e1 [|e2 l]]]; try discriminate;
      destruct e0; try discriminate;
      destruct e1 as [s|elems0|n'| |s|s]; try discriminate.
    destruct (Nat.even (length elems0) && forallb Wording.is_string elems0) eqn:Hok;
      [|discriminate].
    injection Hshape as Hn He. subst n elems.
    rewrite (handleResponse_well_formed _ _ _ Hok).
    apply andb_true_iff in Hok as [Heven Hall].
    split; [reflexivity|].
    split; [intros field; apply lookup_decoded|].
    split; [apply (proj1 (decode_pairs_complete elems0)); assumption|].
    split; [reflexivity|].
    intros Hn. simpl. apply wrap64_small. exact Hn.
  - rewrite (handleResponse_ill_formed _ _ Hshape).
    repeat split.
Qed.

(** C6 on the resilver of the specification's scenario, on a reply with an
    odd number of fields, and on the null reply. *)
Lemma C6_witness :
  is_u64 11
  /\ SharedHash.currentVersion
       (SharedHash.handleResponse
          (Examples.vhgetall 11 [REDIS_REPLY_STRING "a"; REDIS_REPLY_STRING "2";
                                 REDIS_REPLY_STRING "b"; REDIS_REPLY_STRING "3"])
          Examples.hash7) = 11.
Proof.
  assert (Hn : is_u64 11) by (unfold is_u64, two64; lia).
  split; [exact Hn|].
  exact (proj2 (proj2 (proj2 (proj2
    (C6_handleResponse_by_shape
       (Examples.vhgetall 11 [REDIS_REPLY_STRING "a"; REDIS_REPLY_STRING "2";
                              REDIS_REPLY_STRING "b"; REDIS_REPLY_STRING "3"])
       Examples.hash7)))) Hn).
Defined.

Example resilver_reply_shapes :
  Wording.resilver_shape (Examples.vhgetall 7 [REDIS_REPLY_STRING "a"]) = None
  /\ Wording.resilver_shape (Examples.vhgetall 7 [REDIS_REPLY_STRING "a"; REDIS_REPLY_NIL]) = None
  /\ Wording.resilver_shape (Some REDIS_REPLY_NIL) = None
  /\ Wording.resilver_shape None = None
  /\ SharedHash.contents
       (SharedHash.handleResponse (Examples.vhgetall 9 [REDIS_REPLY_STRING "a"])
                                  Examples.hash7) !! "a" = Some "1".
Proof. vm_compute. repeat split. Qed.

(** ** [SharedHash]: the resilver requests *)

Section Resilvering.
Import SharedHash HashTrace Wording.

Lemma awaits_latest_frame h h' :
  key h' = key h ->
  ClientPort.requests (qcl h') = ClientPort.requests (qcl h) ->
  futureReply h' = futureReply h \/ futureReply h' = None ->
  awaits_latest h -> awaits_latest h'.
Proof.
  intros Hk Hr Hf Hinv id Hid.
  destruct Hf as [Hf|Hf]; [|congruence].
  rewrite Hf in Hid. specialize (Hinv id Hid).
  unfold latest_resilver in *. rewrite Hk, Hr. exact Hinv.
Qed.

Lemma handleResponse_cases reply h :
  handleResponse reply h = parseError reply h
  \/ exists revision newContents,
       handleResponse reply h = resilver revision newContents h.
Proof.
  destruct (resilver_shape reply) as [[n elems]|] eqn:Hshape.
  - right. unfold resilver_shape in Hshape.
    destruct reply as [[s|l|n0| |s|s]|]; try discriminate.
    destruct l as [|e0 [|e1 [|e2 l]]]; try discriminate;
      destruct e0; try discriminate;
      destruct e1 as [s|elems0|n'| |s|s]; try discriminate.
    destruct (Nat.even (length elems0) && forallb is_string elems0) eqn:Hok;
      [|discriminate].
    eexists _, _. apply handleResponse_well_formed. exact Hok.
  - left. apply handleResponse_ill_formed. exact Hshape.
Qed.

Lemma handleResponse_frame reply h :
  key (handleResponse reply h) = key h
  /\ qcl (handleResponse reply h) = qcl h
  /\ futureReply (handleResponse reply h) = futureReply h.
Proof.
  destruct (handleResponse_cases reply h) as [->|(revision & newContents & ->)];
    repeat split.
Qed.

Lemma checkFuture_frame h :
  key (checkFuture h) = key h
  /\ qcl (checkFuture h) = qcl h
  /\ (futureReply (checkFuture h) = futureReply h \/ futureReply (checkFuture h) = None).
Proof.
  unfold checkFuture.
  destruct (futureReply h) as [fut|] eqn:Hfut; [|rewrite Hfut; auto].
  destruct (ClientPort.replies (qcl h) !! fut) as [reply|]; [|rewrite Hfut; auto].
  destruct (handleResponse_frame reply (with_future None h)) as (Hk & Hq & Hf).
  rewrite Hk, Hq, Hf. auto.
Qed.

Lemma awaits_latest_checkFuture h : awaits_latest h -> awaits_latest (checkFuture h).
Proof.
  destruct (checkFuture_frame h) as (Hk & Hq & Hf).
  apply awaits_latest_frame; [exact Hk|rewrite Hq; reflexivity|exact Hf].
Qed.

Lemma awaits_latest_trigger h : awaits_latest (triggerResilvering h).
Proof.
  intros id Hid. simpl in Hid. injection Hid as <-.
  unfold latest_resilver. simpl. split.
  - apply list_lookup_middle. reflexivity.
  - intros j r Hlt Hj. apply lookup_lt_Some in Hj.
    rewrite length_app in Hj. simpl in Hj. lia.
Qed.

Lemma awaits_latest_set_batch batch h :
  awaits_latest h -> awaits_latest (set_batch batch h).
Proof.
  intros Hinv id Hid. simpl in Hid. destruct (Hinv id Hid) as [Hreq Hlater].
  unfold latest_resilver. simpl. split.
  - rewrite lookup_app_l; [exact Hreq|]. apply lookup_lt_Some in Hreq. exact Hreq.
  - intros j r Hlt Hj.
    destruct (decide (j < length (ClientPort.requests (qcl h)))%nat) as [Hin|Hout].
    + rewrite lookup_app_l in Hj by exact Hin. apply (Hlater j r Hlt Hj).
    + rewrite lookup_app_r in Hj by lia.
      destruct (j - length (ClientPort.requests (qcl h)))%nat; [|discriminate].
      injection Hj as <-. reflexivity.
Qed.

Lemma awaits_latest_feedRevision revision updates h :
  awaits_latest h -> awaits_latest (snd (feedRevision revision updates h)).
Proof.
  apply awaits_latest_frame; unfold feedRevision;
    destruct (revision <=? currentVersion h);
    try destruct (revision >=? wrap64 (currentVersion h + 2)); auto.
Qed.

Lemma awaits_latest_step e h : awaits_latest h -> awaits_latest (step e h).
Proof.
  intros Hinv. destruct e; simpl.
  - apply awaits_latest_checkFuture, awaits_latest_trigger.
  - exact Hinv.
  - apply awaits_latest_checkFuture, Hinv.
  - apply awaits_latest_checkFuture, Hinv.
  - apply awaits_latest_checkFuture, Hinv.
  - apply awaits_latest_set_batch, Hinv.
  - apply awaits_latest_feedRevision, Hinv.
  - revert Hinv. apply awaits_latest_frame; auto.
Qed.

Lemma awaits_latest_run es h : awaits_latest h -> awaits_latest (run es h).
Proof.
  revert h. induction es as [|e es IH]; intros h Hinv; [exact Hinv|].
  simpl. apply IH, awaits_latest_step, Hinv.
Qed.

End Resilvering.

(** C8, as stated, fails: the constructor issues a VHGETALL, and a
    connection-established notification that comes before its reply issues
    a second one; both are then in flight. *)
Lemma C8_two_resilvers_in_flight :
  HashTrace.resilvers_in_flight
    (HashTrace.run [HashTrace.ConnectionEstablished 1] Examples.hash0) = [0%nat; 1%nat]
  /\ ~ (length (HashTrace.resilvers_in_flight
                  (HashTrace.run [HashTrace.ConnectionEstablished 1] Examples.hash0))
        <= 1)%nat.
Proof. split; [vm_compute; reflexivity|]. vm_compute. lia. Qed.

(** C8, amended.  After construction and any sequence of notifications,
    reads, writes, feeds and arriving replies, the reply the hash awaits, if
    any, is that of the VHGETALL it issued last: [triggerResilvering] issues
    a new request without looking at the previous one and keeps only the
    new future.  The only reply [checkFuture] ever hands to [handleResponse]
    is therefore that of the latest request. *)
Theorem C8_hash_awaits_only_latest_resilver
        (client : ClientPort.t) (k : string) (es : list HashTrace.Event) :
  let h := HashTrace.run es (SharedHash.create client k) in
  (forall id, SharedHash.futureReply h = Some id -> Wording.latest_resilver h id)
  /\ (SharedHash.checkFuture h = h
      \/ exists id reply,
           Wording.latest_resilver h id
           /\ ClientPort.replies (SharedHash.qcl h) !! id = Some reply
           /\ SharedHash.checkFuture h
              = SharedHash.handleResponse reply (SharedHash.with_future None h)).
Proof.
  intros h.
  assert (Hinv : Wording.awaits_latest h).
  { apply (awaits_latest_run es (SharedHash.create client k)).
    apply awaits_latest_trigger. }
  split; [exact Hinv|].
  unfold SharedHash.checkFuture.
  destruct (SharedHash.futureReply h) as [fut|] eqn:Hfut; [|left; reflexivity].
  destruct (ClientPort.replies (SharedHash.qcl h) !! fut) as [reply|] eqn:Hreply;
    [|left; reflexivity].
  right. exists fut, reply.
  split; [apply Hinv; exact Hfut|]. split; [exact Hreply|reflexivity].
Qed.

(** C8 amended: construction, a write, a second trigger, then the reply of
    the first request, which is no longer awaited; request 2 is. *)
Lemma C8_witness :
  let es := [HashTrace.Set_ {["a" := "1"]}; HashTrace.ConnectionEstablished 1;
             HashTrace.ReplyArrives 0 (Examples.vhgetall 7 []); HashTrace.Incoming] in
  SharedHash.futureReply (HashTrace.run es (SharedHash.create ClientPort.init "K"))
  = Some 2%nat
  /\ Wording.latest_resilver (HashTrace.run es (SharedHash.create ClientPort.init "K")) 2.
Proof.
  intros es.
  assert (Hfut : SharedHash.futureReply
                   (HashTrace.run es (SharedHash.create ClientPort.init "K")) = Some 2%nat)
    by reflexivity.
  split; [exact Hfut|].
  exact (proj1 (C8_hash_awaits_only_latest_resilver ClientPort.init "K" es) 2%nat Hfut).
Defined.

(** ** [SharedHash]: writes *)

Section Writes.
Import SharedHash.

Lemma fold_emplace_back (pairs : list (string * string)) (multi : MultiBuilder.t) :
  fold_left (fun acc kv => MultiBuilder.emplace_back (batch_command kv) acc) pairs multi
  = multi ++ map batch_command pairs.
Proof.
  revert multi. induction pairs as [|kv pairs IH]; intros multi; simpl.
  - symmetry. apply app_nil_r.
  - rewrite IH. unfold MultiBuilder.emplace_back.
    rewrite <- app_assoc. reflexivity.
Qed.

Lemma batch_multi_map batch :
  batch_multi batch = map batch_command (StdMap.items batch).
Proof. unfold batch_multi. apply fold_emplace_back. Qed.

Lemma items_singleton (field value : string) :
  StdMap.items (<[field := value]> ∅) = [(field, value)].
Proof.
  unfold StdMap.items. rewrite insert_empty, map_to_list_singleton. reflexivity.
Qed.

Lemma items_elem_of batch k v :
  (k, v) ∈ StdMap.items batch <-> batch !! k = Some v.
Proof.
  unfold StdMap.items. rewrite merge_sort_Permutation.
  apply elem_of_map_to_list.
Qed.

#[local] Instance key_le_total : Total StdMap.key_le.
Proof. intros x y. unfold StdMap.key_le. apply String.leb_total. Qed.

(** The traversal visits the pairs by ascending key. *)
Lemma items_sorted batch : Sorted StdMap.key_le (StdMap.items batch).
Proof. unfold StdMap.items. apply Sorted_merge_sort. exact key_le_total. Qed.

Lemma set_batch_requests batch h :
  ClientPort.requests (qcl (set_batch batch h))
  = ClientPort.requests (qcl h)
    ++ [ClientPort.Pipeline
          ([["MULTI"]] ++ map batch_command (StdMap.items batch) ++ [["EXEC"]])].
Proof. unfold set_batch. simpl. rewrite batch_multi_map. reflexivity. Qed.

End Writes.

(** C10.  [del(field)] is [set(field, "")]: both execute the bundle
    MULTI, VHDEL field, EXEC.  In general [set(batch)] executes one bundle
    that holds, between MULTI and EXEC, one command per pair of the batch:
    VHDEL field for a pair with an empty value, VHSET field value for any
    other. *)
Theorem C10_del_is_set_empty (field : string) (batch : gmap string string)
        (h : SharedHash.t) :
  SharedHash.del field h = SharedHash.set field "" h
  /\ ClientPort.requests (SharedHash.qcl (SharedHash.del field h))
     = ClientPort.requests (SharedHash.qcl h)
       ++ [ClientPort.Pipeline [["MULTI"]; ["VHDEL"; field]; ["EXEC"]]]
  /\ exists cmds : list (list string),
       ClientPort.requests (SharedHash.qcl (SharedHash.set_batch batch h))
       = ClientPort.requests (SharedHash.qcl h)
         ++ [ClientPort.Pipeline ([["MULTI"]] ++ cmds ++ [["EXEC"]])]
       /\ length cmds = size batch
       /\ (forall k v, batch !! k = Some v ->
             (v = "" -> ["VHDEL"; k] ∈ cmds) /\ (v <> "" -> ["VHSET"; k; v] ∈ cmds))
       /\ (forall cmd, cmd ∈ cmds ->
             exists k v, batch !! k = Some v
                         /\ cmd = if decide (v = "") then ["VHDEL"; k] else ["VHSET"; k; v]).
Proof.
  split; [reflexivity|]. split.
  - unfold SharedHash.del. rewrite set_batch_requests, items_singleton. reflexivity.
  - exists (map SharedHash.batch_command (StdMap.items batch)).
    split; [apply set_batch_requests|]. split; [|split].
    + rewrite length_map. unfold StdMap.items.
      rewrite merge_sort_Permutation. apply length_map_to_list.
    + intros k v Hkv. apply items_elem_of in Hkv.
      split; intros Hv.
      * subst v. apply (list_elem_of_fmap_2 SharedHash.batch_command _ _ Hkv).
      * apply (list_elem_of_fmap_2 SharedHash.batch_command) in Hkv.
        unfold SharedHash.batch_command in Hkv at 1. simpl in Hkv.
        destruct (String.eqb_spec v ""); [contradiction|exact Hkv].
    + intros cmd Hcmd. apply list_elem_of_fmap in Hcmd as ([k v] & -> & Hkv).
      apply items_elem_of in Hkv. exists k, v. split; [exact Hkv|].
      unfold SharedHash.batch_command. simpl.
      destruct (String.eqb_spec v ""); case_decide; congruence.
Qed.

(** C10 on a batch with a deletion and a write. *)
Lemma C10_witness :
  (<["b" := "1"]> {["a" := ""]} : gmap string string) !! "a" = Some ""
  /\ ClientPort.requests
       (SharedHash.qcl (SharedHash.set_batch (<["b" := "1"]> {["a" := ""]}) Examples.hash0))
     = [ClientPort.Command ["VHGETALL"; "K"];
        ClientPort.Pipeline [["MULTI"]; ["VHDEL"; "a"]; ["VHSET"; "b"; "1"]; ["EXEC"]]]
  /\ SharedHash.del "a" Examples.hash0 = SharedHash.set "a" "" Examples.hash0.
Proof.
  split; [reflexivity|]. split; [vm_compute; reflexivity|].
  exact (proj1 (C10_del_is_set_empty "a" ∅ Examples.hash0)).
Defined.

(** ** [QClient]: choosing the endpoint *)

Section Connect.
Import QClient.
Context `{EndpointOps}.

(** The endpoint [connect] settles on before the intercept table is looked
    at: the pending redirect if one is set, the member otherwise. *)
Lemma processRedirection_target (q : t) :
  targetEndpoint (processRedirection q)
  = (if Endpoint_empty (redirectedEndpoint q) then targetEndpoint q
     else redirectedEndpoint q)
  /\ redirectedEndpoint (processRedirection q) = Endpoint_default
  /\ redirectionActive (processRedirection q) = negb (Endpoint_empty (redirectedEndpoint q))
  /\ nextMember (processRedirection q) = nextMember q
  /\ members (processRedirection q) = members q.
Proof.
  unfold processRedirection.
  destruct (Endpoint_empty (redirectedEndpoint q));
    [destruct (redirectionActive q) eqn:Hactive|]; simpl; rewrite ?Hactive;
    repeat split.
Qed.

Lemma discoverIntercept_target (w : World) (q : t) :
  targetEndpoint (discoverIntercept w q) = Wording.intercepted w (targetEndpoint q)
  /\ redirectedEndpoint (discoverIntercept w q) = redirectedEndpoint q
  /\ redirectionActive (discoverIntercept w q) = redirectionActive q
  /\ nextMember (discoverIntercept w q) = nextMember q
  /\ members (discoverIntercept w q) = members q.
Proof.
  unfold discoverIntercept, Wording.intercepted.
  destruct (intercepts w !! _) as [[host2 port2]|]; repeat split.
Qed.

Lemma connectTCP_frame (w : World) (q : t) :
  targetEndpoint (connectTCP w q) = targetEndpoint q
  /\ redirectedEndpoint (connectTCP w q) = redirectedEndpoint q
  /\ redirectionActive (connectTCP w q) = redirectionActive q
  /\ nextMember (connectTCP w q) = nextMember q
  /\ members (connectTCP w q) = members q
  /\ handshake (connectTCP w q) = handshake q
  /\ WriterThread.staged (writerThread (connectTCP w q))
     = WriterThread.staged (writerThread q)
  /\ WriterThread.resolved (writerThread (connectTCP w q))
     = WriterThread.resolved (writerThread q).
Proof.
  unfold connectTCP. simpl.
  destruct (reachable w (targetEndpoint q)); repeat split.
Qed.

(** The state [connect] reaches, field by field. *)
Lemma connect_fields (w : World) (q : t) (e : Endpoint) :
  members q !! nextMember q = Some e ->
  exists q',
    connect w q = Some q'
    /\ members q' = members q
    /\ nextMember q' = ((nextMember q + 1) mod length (members q))%nat
    /\ targetEndpoint q'
       = Wording.intercepted w (if Endpoint_empty (redirectedEndpoint q) then e
                                else redirectedEndpoint q)
    /\ redirectionActive q' = negb (Endpoint_empty (redirectedEndpoint q))
    /\ redirectedEndpoint q' = Endpoint_default.
Proof.
  intros He. unfold connect.
  change (members (cleanup q)) with (members q).
  change (nextMember (cleanup q)) with (nextMember q).
  rewrite He.
  set (q3 := with_nextMember _ (with_target e (cleanup q))).
  destruct (processRedirection_target q3) as (Pt & Pr & Pa & Pn & Pm).
  destruct (discoverIntercept_target w (processRedirection q3)) as (Dt & Dr & Da & Dn & Dm).
  set (q6 := with_reader true (discoverIntercept w (processRedirection q3))).
  destruct (connectTCP_frame w q6) as (Ct & Cr & Ca & Cn & Cm & _).
  assert (Hfields :
    members (connectTCP w q6) = members q
    /\ nextMember (connectTCP w q6) = ((nextMember q + 1) mod length (members q))%nat
    /\ targetEndpoint (connectTCP w q6)
       = Wording.intercepted w (if Endpoint_empty (redirectedEndpoint q) then e
                                else redirectedEndpoint q)
    /\ redirectionActive (connectTCP w q6) = negb (Endpoint_empty (redirectedEndpoint q))
    /\ redirectedEndpoint (connectTCP w q6) = Endpoint_default).
  { rewrite Cm, Cn, Ct, Ca, Cr. subst q6. simpl.
    rewrite Dm, Dn, Dt, Da, Dr, Pm, Pn, Pt, Pa, Pr.
    subst q3. simpl. repeat split. }
  destruct (handshake (with_handshakePending false (connectTCP w q6)));
    eexists; (split; [reflexivity|]); simpl; exact Hfields.
Qed.

(** Construction over a non-empty member list connects, and leaves
    [nextMember] inside the list. *)
Lemma create_nextMember (w : World) (members_ : list Endpoint) (redirects : bool)
      (handshake_ : option Handshake) :
  members_ <> [] ->
  exists q, create w members_ redirects handshake_ = Some q
            /\ members q = members_
            /\ (nextMember q < length (members q))%nat.
Proof.
  intros Hne. destruct members_ as [|e0 rest]; [contradiction|].
  unfold create.
  destruct (connect_fields w
              (mk 0 (e0 :: rest) Endpoint_default Endpoint_default false redirects true
                  None false false WriterThread.init handshake_ true) e0 eq_refl)
    as (q & Hc & Hm & Hn & _).
  exists q. split; [exact Hc|]. split; [exact Hm|].
  rewrite Hn, Hm. apply Nat.mod_upper_bound. discriminate.
Qed.

End Connect.

(** C9.  A connection attempt with [nextMember] inside the member list (as
    it is at construction over a non-empty list, and as every attempt leaves
    it) chooses a target: [nextMember] advances by one modulo the number of
    members; the target is the pending redirect if one is set and
    [members[nextMember]] otherwise, replaced by its image in the intercept
    table if it has one; the pending redirect is cleared, so that the
    attempt after a redirected one takes the member at the advanced index
    again. *)
Theorem C9_connect_target `{EndpointOps} (w : QClient.World) (q : QClient.t) :
  (QClient.nextMember q < length (QClient.members q))%nat ->
  exists (e : Endpoint) (q' : QClient.t),
    QClient.members q !! QClient.nextMember q = Some e
    /\ QClient.connect w q = Some q'
    /\ QClient.members q' = QClient.members q
    /\ QClient.nextMember q'
       = ((QClient.nextMember q + 1) mod length (QClient.members q))%nat
    /\ QClient.targetEndpoint q'
       = Wording.intercepted w
           (if Endpoint_empty (QClient.redirectedEndpoint q) then e
            else QClient.redirectedEndpoint q)
    /\ Endpoint_empty (QClient.redirectedEndpoint q') = true
    /\ (QClient.nextMember q' < length (QClient.members q'))%nat
    /\ exists (e2 : Endpoint) (q'' : QClient.t),
         QClient.members q !! QClient.nextMember q' = Some e2
         /\ QClient.connect w q' = Some q''
         /\ QClient.targetEndpoint q'' = Wording.intercepted w e2.
Proof.
  intros Hin.
  destruct (lookup_lt_is_Some_2 _ _ Hin) as [e He].
  destruct (connect_fields w q e He) as (q' & Hc & Hm & Hn & Ht & _ & Hr).
  assert (Hin' : (QClient.nextMember q' < length (QClient.members q'))%nat).
  { rewrite Hn, Hm. apply Nat.mod_upper_bound. lia. }
  destruct (lookup_lt_is_Some_2 _ _ Hin') as [e2 He2].
  destruct (connect_fields w q' e2 He2) as (q'' & Hc2 & _ & _ & Ht2 & _ & _).
  exists e, q'. repeat (split; [assumption|]).
  split; [rewrite Hr; apply Endpoint_default_empty|].
  split; [exact Hin'|].
  exists e2, q''. rewrite <- Hm. split; [exact He2|]. split; [exact Hc2|].
  rewrite Ht2, Hr, Endpoint_default_empty. reflexivity.
Qed.

(** C9 with two members, a pending redirect to [B], and [B] intercepted:
    the attempt goes to the image of [B], and [nextMember] moves from 1 to 0. *)
Lemma C9_witness :
  let q := QClient.with_redirected Examples.B
             (QClient.with_nextMember 1 (Examples.fresh true None)) in
  (QClient.nextMember q < length (QClient.members q))%nat
  /\ exists (e : Endpoint) (q' : QClient.t),
       QClient.connect Examples.world1 q = Some q'
       /\ QClient.nextMember q' = 0%nat
       /\ QClient.targetEndpoint q' = mkEndpoint "localhost" 7777.
Proof.
  intros q.
  assert (Hin : (QClient.nextMember q < length (QClient.members q))%nat)
    by (subst q; simpl; lia).
  split; [exact Hin|].
  destruct (C9_connect_target Examples.world1 q Hin)
    as (e & q' & _ & Hc & _ & Hn & Ht & _).
  exists e, q'. split; [exact Hc|]. split; [exact Hn|exact Ht].
Defined.

(** ** [QClient]: replies *)

Section Feed.
Import QClient.

Lemma with_handshakePending_id (q : t) :
  handshakePending q = false -> with_handshakePending false q = q.
Proof. destruct q. simpl. intros ->. reflexivity. Qed.

Lemma redirect_target_moved (q : t) (str : string) :
  transparentRedirects q = true -> String.prefix "MOVED " str = true ->
  redirect_target q (REDIS_REPLY_ERROR str) = Wording.moved_endpoint str.
Proof.
  intros Ht Hp. unfold redirect_target, Wording.moved_endpoint.
  rewrite Ht, Hp. reflexivity.
Qed.

(** One reply that passes the handshake check, if one is pending. *)
Lemma feed_reply (q : t) (rr : redisReply) (rest : list ReaderResult) :
  (handshakePending q = true ->
   exists hs, handshake q = Some hs /\ validateResponse hs rr = true) ->
  feed (ReaderReply rr :: rest) q
  = match redirect_target q rr with
    | Some e => Some (false, with_redirected e (with_handshakePending false q))
    | None =>
        feed rest (with_writer (WriterThread.satisfy (Some rr) (writerThread q))
                               (with_handshakePending false q))
    end.
Proof.
  intros Hhs. destruct (handshakePending q) eqn:Hp.
  - destruct (Hhs eq_refl) as (hs & Hh & Hv).
    cbn [feed]. rewrite Hp, Hh, Hv. reflexivity.
  - rewrite (with_handshakePending_id q Hp).
    cbn [feed]. rewrite Hp. reflexivity.
Qed.

(** A reply the pending handshake refuses ends [feed] at once. *)
Lemma feed_handshake_invalid (q : t) (hs : Handshake) (rr : redisReply)
      (rest : list ReaderResult) :
  handshakePending q = true -> handshake q = Some hs ->
  validateResponse hs rr = false ->
  feed (ReaderReply rr :: rest) q = Some (false, q).
Proof. intros Hp Hh Hv. simpl. rewrite Hp, Hh, Hv. reflexivity. Qed.

(** [feed] never dereferences a null handshake from a state in which a
    pending handshake check has a handshake, as every state left by
    [connect] is. *)
Lemma feed_defined (parsed : list ReaderResult) (q : t) :
  (handshakePending q = true -> is_Some (handshake q)) ->
  is_Some (feed parsed q).
Proof.
  revert q. induction parsed as [|[|rr] rest IH]; intros q Hq; cbn [feed];
    try (eexists; reflexivity).
  destruct (handshakePending q) eqn:Hp.
  - destruct (Hq eq_refl) as [hs ->].
    destruct (negb (validateResponse hs rr)); [eexists; reflexivity|].
    destruct (redirect_target _ rr); [eexists; reflexivity|].
    apply IH. simpl. discriminate.
  - destruct (redirect_target q rr); [eexists; reflexivity|].
    apply IH. simpl. rewrite Hp. discriminate.
Qed.

End Feed.

(** C3, as stated, fails: with transparent redirects on, an error whose text
    starts with "MOVED " but has a fourth token is handed to the writer,
    which completes the oldest staged request with it. *)
Lemma C3_moved_with_extra_token_is_delivered :
  QClient.transparentRedirects Examples.plain_busy = true
  /\ String.prefix "MOVED " "MOVED 5 B:6380 x" = true
  /\ Utils.parseServer "B:6380" = Some (Utils.mkServer "B" 6380)
  /\ WriterThread.staged (QClient.writerThread Examples.plain_busy) = [["GET"; "x"]]
  /\ match QClient.feed [QClient.ReaderReply (REDIS_REPLY_ERROR "MOVED 5 B:6380 x")]
                        Examples.plain_busy with
     | Some (true, q') =>
         WriterThread.resolved (QClient.writerThread q')
         = [(["GET"; "x"], Some (REDIS_REPLY_ERROR "MOVED 5 B:6380 x"))]
         /\ Endpoint_empty (QClient.redirectedEndpoint q') = true
     | _ => False
     end.
Proof. vm_compute. repeat split. Qed.

(** C3, amended.  With transparent redirects on, for an error reply whose
    text starts with "MOVED " and which a pending handshake check does not
    refuse: if the text is made of exactly three space-separated tokens and
    the third parses as host:port, [feed] stores that endpoint as the
    pending redirect and returns false without satisfying anything and
    without looking at later replies; if the text has any other form, the
    reply is satisfied like every other reply. *)
Theorem C3_moved_reply (q : QClient.t) (str : string)
        (rest : list QClient.ReaderResult) :
  QClient.transparentRedirects q = true ->
  String.prefix "MOVED " str = true ->
  (QClient.handshakePending q = true ->
   exists hs, QClient.handshake q = Some hs
              /\ validateResponse hs (REDIS_REPLY_ERROR str) = true) ->
  match Wording.moved_endpoint str with
  | Some e =>
      exists q', QClient.feed (QClient.ReaderReply (REDIS_REPLY_ERROR str) :: rest) q
                 = Some (false, q')
                 /\ QClient.redirectedEndpoint q' = e
                 /\ QClient.writerThread q' = QClient.writerThread q
  | None =>
      QClient.feed (QClient.ReaderReply (REDIS_REPLY_ERROR str) :: rest) q
      = QClient.feed rest
          (QClient.with_writer
             (WriterThread.satisfy (Some (REDIS_REPLY_ERROR str)) (QClient.writerThread q))
             (QClient.with_handshakePending false q))
  end.
Proof.
  intros Ht Hp Hhs.
  rewrite (feed_reply q _ rest Hhs), (redirect_target_moved q str Ht Hp).
  destruct (Wording.moved_endpoint str) as [e|]; [|reflexivity].
  eexists. split; [reflexivity|]. split; reflexivity.
Qed.

(** C3 amended, on the redirect of the specification's scenario. *)
Lemma C3_witness :
  QClient.transparentRedirects Examples.plain_busy = true
  /\ String.prefix "MOVED " "MOVED 5 B:6380" = true
  /\ QClient.handshakePending Examples.plain_busy = false
  /\ exists q', QClient.feed [QClient.ReaderReply (REDIS_REPLY_ERROR "MOVED 5 B:6380")]
                             Examples.plain_busy = Some (false, q')
                /\ QClient.redirectedEndpoint q' = Examples.B
                /\ QClient.writerThread q' = QClient.writerThread Examples.plain_busy.
Proof.
  assert (Ht : QClient.transparentRedirects Examples.plain_busy = true) by reflexivity.
  assert (Hp : String.prefix "MOVED " "MOVED 5 B:6380" = true) by reflexivity.
  assert (Hh : QClient.handshakePending Examples.plain_busy = false) by reflexivity.
  split; [exact Ht|]. split; [exact Hp|]. split; [exact Hh|].
  refine (C3_moved_reply Examples.plain_busy "MOVED 5 B:6380" [] Ht Hp _).
  intros Habs. rewrite Hh in Habs. discriminate Habs.
Defined.

(** ** [QClient]: pending requests across [cleanup] and [connect] *)

Section Pending.
Import QClient.
Context `{EndpointOps}.


Lemma processRedirection_writer (q : t) :
  writerThread (processRedirection q) = writerThread q
  /\ handshake (processRedirection q) = handshake q.
Proof.
  unfold processRedirection.
  destruct (Endpoint_empty (redirectedEndpoint q));
    [destruct (redirectionActive q)|]; split; reflexivity.
Qed.

Lemma discoverIntercept_writer (w : World) (q : t) :
  writerThread (discoverIntercept w q) = writerThread q
  /\ handshake (discoverIntercept w q) = handshake q.
Proof.
  unfold discoverIntercept.
  destruct (intercepts w !! _) as [[host2 port2]|]; split; reflexivity.
Qed.

(** What [connect] leaves in the writer: everything that was staged is
    resolved with the nil reply, and the queue holds the handshake alone, if
    there is one. *)
Lemma connect_writer (w : World) (q q' : t) :
  connect w q = Some q' ->
  handshake q' = handshake q
  /\ handshakePending q' = bool_decide (is_Some (handshake q))
  /\ WriterThread.resolved (writerThread q')
     = WriterThread.resolved (writerThread q)
       ++ map (fun req => (req, None)) (WriterThread.staged (writerThread q))
  /\ WriterThread.staged (writerThread q')
     = match handshake q with
       | Some hs => [provideHandshake hs]
       | None => []
       end.
Proof.
  unfold connect.
  change (members (cleanup q)) with (members q).
  change (nextMember (cleanup q)) with (nextMember q).
  destruct (members q !! nextMember q) as [e|]; [|discriminate].
  set (q3 := with_nextMember _ (with_target e (cleanup q))).
  destruct (processRedirection_writer q3) as (Pw & Ph).
  destruct (discoverIntercept_writer w (processRedirection q3)) as (Dw & Dh).
  set (q6 := with_reader true (discoverIntercept w (processRedirection q3))).
  destruct (connectTCP_frame w q6) as (_ & _ & _ & _ & _ & Ch & Cs & Cr).
  assert (Hh : handshake (connectTCP w q6) = handshake q).
  { rewrite Ch. subst q6. simpl. rewrite Dh, Ph. reflexivity. }
  assert (Hs : WriterThread.staged (writerThread (connectTCP w q6)) = []).
  { rewrite Cs. subst q6. simpl. rewrite Dw, Pw. reflexivity. }
  assert (Hr : WriterThread.resolved (writerThread (connectTCP w q6))
               = WriterThread.resolved (writerThread q)
                 ++ map (fun req => (req, None)) (WriterThread.staged (writerThread q))).
  { rewrite Cr. subst q6. simpl. rewrite Dw, Pw. reflexivity. }
  change (handshake (with_handshakePending false (connectTCP w q6)))
    with (handshake (connectTCP w q6)).
  rewrite Hh.
  destruct (handshake q) as [hs|]; intros [= <-]; simpl; rewrite ?Hs, ?Hr;
    repeat split; assumption.
Qed.

Lemma execute_all_fields (users : list EncodedRequest) (q : t) :
  let q1 := fold_left (fun acc req => execute req acc) users q in
  handshake q1 = handshake q
  /\ handshakePending q1 = handshakePending q
  /\ WriterThread.staged (writerThread q1) = WriterThread.staged (writerThread q) ++ users
  /\ WriterThread.resolved (writerThread q1) = WriterThread.resolved (writerThread q).
Proof.
  revert q. induction users as [|req users IH]; intros q; simpl.
  - rewrite app_nil_r. repeat split.
  - destruct (IH (execute req q)) as (Hh & Hp & Hs & Hr).
    rewrite Hh, Hp, Hs, Hr. simpl. rewrite <- app_assoc. repeat split.
Qed.

End Pending.

(** C4, as stated, fails in its second half: a turn of the event loop that
    reconnects (no shutdown) runs [connect], whose first step is [cleanup],
    and the request staged on the lost connection is resolved with nil. *)
Lemma C4_reconnect_clears_pending :
  QClient.shutdown Examples.plain_busy = false
  /\ WriterThread.staged (QClient.writerThread Examples.plain_busy) = [["GET"; "x"]]
  /\ WriterThread.resolved (QClient.writerThread Examples.plain_busy) = []
  /\ match QClient.eventLoop_turn Examples.world0 1 [] Examples.plain_busy with
     | Some (inr (backoff, q')) =>
         backoff = 2
         /\ QClient.shutdown q' = false
         /\ WriterThread.staged (QClient.writerThread q') = []
         /\ WriterThread.resolved (QClient.writerThread q') = [(["GET"; "x"], None)]
     | _ => False
     end.
Proof. vm_compute. repeat split. Qed.

(** C4, amended.  [clearPending] resolves every staged request with the nil
    reply and empties the queue; it is called by [cleanup], which runs in
    the destructor and as the first step of every [connect], hence in every
    reconnecting turn of the event loop: after a [connect], every request
    that was staged before it is resolved with nil, and the queue holds at
    most the handshake. *)
Theorem C4_clearPending_in_every_cleanup `{EndpointOps}
        (w : QClient.World) (backoff : Z) (leftover : list QClient.ReaderResult)
        (q : QClient.t) :
  (forall wt : WriterThread.t,
      WriterThread.staged (WriterThread.clearPending wt) = []
      /\ WriterThread.resolved (WriterThread.clearPending wt)
         = WriterThread.resolved wt
           ++ map (fun req => (req, None)) (WriterThread.staged wt))
  /\ QClient.writerThread (QClient.cleanup q)
     = WriterThread.clearPending (WriterThread.deactivate (QClient.writerThread q))
  /\ QClient.writerThread (QClient.destroy q)
     = WriterThread.clearPending (WriterThread.deactivate (QClient.writerThread q))
  /\ (forall q', QClient.connect w q = Some q' ->
        WriterThread.resolved (QClient.writerThread q')
        = WriterThread.resolved (QClient.writerThread q)
          ++ map (fun req => (req, None)) (WriterThread.staged (QClient.writerThread q))
        /\ WriterThread.staged (QClient.writerThread q')
           = match QClient.handshake q with
             | Some hs => [provideHandshake hs]
             | None => []
             end)
  /\ (QClient.shutdown q = false ->
        QClient.eventLoop_turn w backoff leftover q
        = match QClient.connect w q with
          | Some q' => Some (inr (if backoff <? 2048 then backoff + 1 else backoff, q'))
          | None => None
          end).
Proof.
  split; [intros wt; split; reflexivity|].
  split; [reflexivity|]. split; [reflexivity|]. split.
  - intros q' Hc. destruct (connect_writer w q q' Hc) as (_ & _ & Hr & Hs).
    split; assumption.
  - intros Hs. unfold QClient.eventLoop_turn. rewrite Hs. reflexivity.
Qed.

(** C4 amended, on a reconnect with one request staged. *)
Lemma C4_witness :
  QClient.shutdown Examples.plain_busy = false
  /\ QClient.eventLoop_turn Examples.world0 1 [] Examples.plain_busy
     = match QClient.connect Examples.world0 Examples.plain_busy with
       | Some q' => Some (inr (if 1 <? 2048 then 1 + 1 else 1, q'))
       | None => None
       end.
Proof.
  assert (Hs : QClient.shutdown Examples.plain_busy = false) by reflexivity.
  split; [exact Hs|].
  exact (proj2 (proj2 (proj2 (proj2
    (C4_clearPending_in_every_cleanup Examples.world0 1 [] Examples.plain_busy)))) Hs).
Defined.

(** C5, as stated, fails in its last part: the reply to the handshake, once
    validated, goes on to [satisfy] like every other reply, and the writer
    completes the staged handshake request with it. *)
Lemma C5_handshake_reply_reaches_stager :
  QClient.handshakePending Examples.auth_busy = true
  /\ WriterThread.staged (QClient.writerThread Examples.auth_busy)
     = [["AUTH"; "pw"]; ["GET"; "x"]]
  /\ WriterThread.resolved (QClient.writerThread Examples.auth_busy) = []
  /\ match QClient.feed [QClient.ReaderReply (REDIS_REPLY_STATUS "OK")]
                        Examples.auth_busy with
     | Some (true, q') =>
         WriterThread.resolved (QClient.writerThread q')
         = [(["AUTH"; "pw"], Some (REDIS_REPLY_STATUS "OK"))]
         /\ WriterThread.staged (QClient.writerThread q') = [["GET"; "x"]]
         /\ QClient.writerThread q' <> QClient.writerThread Examples.auth_busy
     | _ => False
     end.
Proof. vm_compute. repeat split. discriminate. Qed.

(** C5, amended.  With a handshake configured, [connect] leaves the
    handshake request alone at the head of the writer's queue and marks it
    pending, so that requests executed afterwards queue up behind it.  The
    first reply is checked by the handshake: if it is refused, [feed]
    returns false and nothing is satisfied; if it is accepted (and is not a
    redirect), the pending mark is dropped and the reply is passed to
    [satisfy], where it completes the handshake request itself and none of
    the requests behind it. *)
Theorem C5_handshake_first_and_checked `{EndpointOps}
        (w : QClient.World) (q0 q : QClient.t) (hs : Handshake)
        (users : list EncodedRequest) (rr : redisReply)
        (rest : list QClient.ReaderResult) :
  QClient.handshake q0 = Some hs ->
  QClient.connect w q0 = Some q ->
  let q1 := fold_left (fun acc req => QClient.execute req acc) users q in
  let q2 := QClient.with_writer
              (WriterThread.satisfy (Some rr) (QClient.writerThread q1))
              (QClient.with_handshakePending false q1) in
  WriterThread.staged (QClient.writerThread q1) = provideHandshake hs :: users
  /\ QClient.handshakePending q1 = true
  /\ (validateResponse hs rr = false ->
        QClient.feed (QClient.ReaderReply rr :: rest) q1 = Some (false, q1))
  /\ (validateResponse hs rr = true -> QClient.redirect_target q1 rr = None ->
        QClient.feed (QClient.ReaderReply rr :: rest) q1 = QClient.feed rest q2
        /\ QClient.handshakePending q2 = false
        /\ WriterThread.staged (QClient.writerThread q2) = users
        /\ WriterThread.resolved (QClient.writerThread q2)
           = WriterThread.resolved (QClient.writerThread q1)
             ++ [(provideHandshake hs, Some rr)]).
Proof.
  intros Hhs Hc q1 q2.
  destruct (connect_writer w q0 q Hc) as (Hh & Hp & _ & Hs).
  rewrite Hhs in Hh, Hp, Hs.
  destruct (execute_all_fields users q) as (Hh1 & Hp1 & Hs1 & Hr1).
  fold q1 in Hh1, Hp1, Hs1, Hr1.
  rewrite Hh in Hh1. rewrite Hp in Hp1. rewrite Hs in Hs1. simpl in Hs1.
  assert (Hpend : QClient.handshakePending q1 = true).
  { rewrite Hp1. apply bool_decide_eq_true. eexists. reflexivity. }
  split; [exact Hs1|]. split; [exact Hpend|]. split.
  - intros Hv. apply (feed_handshake_invalid q1 hs rr rest Hpend Hh1 Hv).
  - intros Hv Hnr. split.
    + rewrite feed_reply by (intros _; exists hs; split; assumption).
      rewrite Hnr. reflexivity.
    + subst q2. unfold WriterThread.satisfy. simpl. rewrite Hs1. simpl.
      repeat split.
Qed.

(** C5 amended, on the client of the example: AUTH is staged by [connect],
    GET x after it; the reply OK completes AUTH and leaves GET x staged. *)
Lemma C5_witness :
  QClient.handshake (Examples.fresh true (Some Examples.auth)) = Some Examples.auth
  /\ QClient.connect Examples.world0 (Examples.fresh true (Some Examples.auth))
     = Some (Examples.connected (Examples.fresh true (Some Examples.auth)))
  /\ WriterThread.staged
       (QClient.writerThread
          (fold_left (fun acc req => QClient.execute req acc) [["GET"; "x"]]
                     (Examples.connected (Examples.fresh true (Some Examples.auth)))))
     = provideHandshake Examples.auth :: [["GET"; "x"]].
Proof.
  assert (Hh : QClient.handshake (Examples.fresh true (Some Examples.auth))
               = Some Examples.auth) by reflexivity.
  assert (Hc : QClient.connect Examples.world0 (Examples.fresh true (Some Examples.auth))
               = Some (Examples.connected (Examples.fresh true (Some Examples.auth))))
    by (vm_compute; reflexivity).
  split; [exact Hh|]. split; [exact Hc|].
  exact (proj1 (C5_handshake_first_and_checked Examples.world0 _ _ Examples.auth
                  [["GET"; "x"]] (REDIS_REPLY_STATUS "OK") [] Hh Hc)).
Defined.

(** * Further properties of the code *)

(** ** [SharedHash]: reads, writes and feeds together *)

Section HashReads.
Import SharedHash Wording Observations.

Lemma foldl_apply_pair_lookup updates c field :
  foldl apply_pair c updates !! field = after_updates (c !! field) field updates.
Proof.
  revert c. induction updates as [|[k v] rest IH]; intros c; [reflexivity|].
  simpl. rewrite IH. unfold after_updates. simpl.
  destruct (last_value field rest) as [v'|]; [reflexivity|].
  unfold apply_pair. simpl.
  destruct (decide (k = field)) as [->|Hne].
  - destruct (decide (v = "")).
    + apply lookup_delete_eq.
    + apply lookup_insert_eq.
  - destruct (decide (v = "")).
    + apply lookup_delete_ne. exact Hne.
    + apply lookup_insert_ne. exact Hne.
Qed.

(** The contents after a reply, whatever the hash held. *)
Lemma handleResponse_contents reply h :
  contents (handleResponse reply h)
  = match resilver_shape reply with
    | Some (_, elems) => decoded_map elems
    | None => contents h
    end
  /\ currentVersion (handleResponse reply h)
     = match resilver_shape reply with
       | Some (n, _) => wrap64 n
       | None => currentVersion h
       end.
Proof.
  destruct (resilver_shape reply) as [[n elems]|] eqn:Hshape.
  - unfold resilver_shape in Hshape.
    destruct reply as [[s|l|n0| |s|s]|]; try discriminate.
    destruct l as [|e0 [|e1 [|e2 l]]]; try discriminate;
      destruct e0; try discriminate;
      destruct e1 as [s|elems0|n'| |s|s]; try discriminate.
    destruct (Nat.even (length elems0) && forallb is_string elems0) eqn:Hok;
      [|discriminate].
    injection Hshape as Hn He. subst n elems.
    rewrite (handleResponse_well_formed _ _ _ Hok). split; reflexivity.
  - rewrite (handleResponse_ill_formed _ _ Hshape). split; reflexivity.
Qed.

Lemma checkFuture_contents_ext h1 h2 :
  futureReply h1 = futureReply h2 ->
  ClientPort.replies (qcl h1) = ClientPort.replies (qcl h2) ->
  contents h1 = contents h2 -> currentVersion h1 = currentVersion h2 ->
  contents (checkFuture h1) = contents (checkFuture h2)
  /\ currentVersion (checkFuture h1) = currentVersion (checkFuture h2).
Proof.
  intros Hf Hr Hc Hv. unfold checkFuture. rewrite Hf, Hr.
  destruct (futureReply h2) as [fut|]; [|split; assumption].
  destruct (ClientPort.replies (qcl h2) !! fut) as [reply|]; [|split; assumption].
  destruct (handleResponse_contents reply (with_future None h1)) as [-> ->].
  destruct (handleResponse_contents reply (with_future None h2)) as [-> ->].
  simpl. rewrite Hc, Hv. split; reflexivity.
Qed.

End HashReads.

(** X1.  After an accepted feed, each field holds what the last pair naming
    it says (nothing, for an empty value), and a field no pair names holds
    what it held before; [get], when no resilver reply waits to be applied,
    returns exactly that. *)
Theorem feed_then_get (revision : Z) (updates : list (string * string))
        (h h' : SharedHash.t) (field : string) :
  SharedHash.feedRevision revision updates h = (true, h') ->
  SharedHash.contents h' !! field
  = Observations.after_updates (SharedHash.contents h !! field) field updates
  /\ (SharedHash.checkFuture h' = h' ->
      fst (SharedHash.get field h')
      = Observations.after_updates (SharedHash.contents h !! field) field updates).
Proof.
  intros Hfeed. destruct (feedRevision_true _ _ _ _ Hfeed) as [_ ->].
  assert (Hc : SharedHash.contents
                 (SharedHash.with_version revision
                    (SharedHash.with_contents
                       (SharedHash.feedAll updates (SharedHash.contents h)) h)) !! field
               = Observations.after_updates (SharedHash.contents h !! field) field updates).
  { simpl. rewrite feedAll_foldl. apply foldl_apply_pair_lookup. }
  split; [exact Hc|].
  intros Hidle. unfold SharedHash.get. simpl fst. rewrite Hidle. exact Hc.
Qed.

Lemma feed_then_get_witness :
  SharedHash.feedRevision 8 [("a", "2"); ("b", "3"); ("a", "")] Examples.hash7
  = (true, snd (SharedHash.feedRevision 8 [("a", "2"); ("b", "3"); ("a", "")] Examples.hash7))
  /\ SharedHash.contents
       (snd (SharedHash.feedRevision 8 [("a", "2"); ("b", "3"); ("a", "")] Examples.hash7))
     !! "a"
     = Observations.after_updates (SharedHash.contents Examples.hash7 !! "a") "a"
                                  [("a", "2"); ("b", "3"); ("a", "")].
Proof.
  assert (Hfeed : SharedHash.feedRevision 8 [("a", "2"); ("b", "3"); ("a", "")] Examples.hash7
     = (true, snd (SharedHash.feedRevision 8 [("a", "2"); ("b", "3"); ("a", "")]
                                           Examples.hash7))) by reflexivity.
  split; [exact Hfeed|].
  exact (proj1 (feed_then_get 8 _ Examples.hash7 _ "a" Hfeed)).
Defined.

(** X2.  [set] and [del] only send: the local contents, the version and
    the awaited future are as before, and a read right after the write
    returns what it would have returned before it. *)
Theorem set_leaves_local_state (batch : gmap string string) (h : SharedHash.t)
        (field : string) :
  SharedHash.contents (SharedHash.set_batch batch h) = SharedHash.contents h
  /\ SharedHash.currentVersion (SharedHash.set_batch batch h) = SharedHash.currentVersion h
  /\ SharedHash.futureReply (SharedHash.set_batch batch h) = SharedHash.futureReply h
  /\ fst (SharedHash.get field (SharedHash.set_batch batch h)) = fst (SharedHash.get field h)
  /\ fst (SharedHash.getCurrentVersion (SharedHash.set_batch batch h))
     = fst (SharedHash.getCurrentVersion h).
Proof.
  split; [reflexivity|]. split; [reflexivity|]. split; [reflexivity|].
  destruct (checkFuture_contents_ext (SharedHash.set_batch batch h) h
              eq_refl eq_refl eq_refl eq_refl) as [Hc Hv].
  unfold SharedHash.get, SharedHash.getCurrentVersion. simpl fst.
  rewrite Hc, Hv. split; reflexivity.
Qed.

(** X3.  A resilver reply is applied once: [checkFuture] consumes the
    future, so checking again changes nothing, and a second read in a row
    leaves the hash as the first one left it. *)
Theorem checkFuture_applies_once (h : SharedHash.t) (field : string) :
  SharedHash.checkFuture (SharedHash.checkFuture h) = SharedHash.checkFuture h
  /\ snd (SharedHash.get field (snd (SharedHash.get field h))) = snd (SharedHash.get field h)
  /\ (SharedHash.checkFuture h <> h -> SharedHash.futureReply (SharedHash.checkFuture h) = None).
Proof.
  assert (Hcases : SharedHash.checkFuture h = h
                   \/ SharedHash.futureReply (SharedHash.checkFuture h) = None).
  { unfold SharedHash.checkFuture.
    destruct (SharedHash.futureReply h) as [fut|] eqn:Hfut; [|left; reflexivity].
    destruct (ClientPort.replies (SharedHash.qcl h) !! fut) as [reply|];
      [|left; reflexivity].
    right. destruct (handleResponse_frame reply (SharedHash.with_future None h))
      as (_ & _ & Hf). rewrite Hf. reflexivity. }
  assert (Hidem : SharedHash.checkFuture (SharedHash.checkFuture h)
                  = SharedHash.checkFuture h).
  { destruct Hcases as [Hsame|Hnone]; [rewrite Hsame; exact Hsame|].
    unfold SharedHash.checkFuture at 1. rewrite Hnone. reflexivity. }
  split; [exact Hidem|]. split; [unfold SharedHash.get; simpl; exact Hidem|].
  intros Hchanged. destruct Hcases as [Hsame|Hnone]; [contradiction|exact Hnone].
Qed.

Lemma checkFuture_applies_once_witness :
  let h := HashTrace.run [HashTrace.ReplyArrives 0 (Examples.vhgetall 7 [])] Examples.hash0 in
  SharedHash.checkFuture h <> h
  /\ SharedHash.futureReply (SharedHash.checkFuture h) = None.
Proof.
  intros h.
  assert (Hchanged : SharedHash.checkFuture h <> h).
  { intros Heq. apply (f_equal SharedHash.currentVersion) in Heq. discriminate Heq. }
  split; [exact Hchanged|].
  exact (proj2 (proj2 (checkFuture_applies_once h "a")) Hchanged).
Defined.

(** X4.  Below the top of the [uint64_t] range, [feedRevision] accepts a
    revision exactly when it is the successor of the current version; a
    refusal changes nothing but the log: contents, version, awaited future
    and the requests sent stay as they are (the hash does not start a
    resilver by itself). *)
Theorem feedRevision_decision (revision : Z) (updates : list (string * string))
        (h : SharedHash.t) :
  0 <= SharedHash.currentVersion h -> SharedHash.currentVersion h + 2 < two64 ->
  let r := SharedHash.feedRevision revision updates h in
  (fst r = true <-> revision = SharedHash.currentVersion h + 1)
  /\ (fst r = false ->
      SharedHash.contents (snd r) = SharedHash.contents h
      /\ SharedHash.currentVersion (snd r) = SharedHash.currentVersion h
      /\ SharedHash.futureReply (snd r) = SharedHash.futureReply h
      /\ SharedHash.qcl (snd r) = SharedHash.qcl h
      /\ exists line, SharedHash.logger (snd r) = SharedHash.logger h ++ [line]).
Proof.
  intros H0 H2 r. subst r. unfold SharedHash.feedRevision.
  rewrite wrap64_plus2 by assumption.
  destruct (revision <=? SharedHash.currentVersion h) eqn:H1.
  - apply Z.leb_le in H1. simpl. split; [split; [discriminate|intros; exfalso; lia]|].
    intros _. repeat split. eexists. reflexivity.
  - apply Z.leb_gt in H1.
    destruct (revision >=? SharedHash.currentVersion h + 2) eqn:H3;
      rewrite Z.geb_leb in H3.
    + apply Z.leb_le in H3. simpl. split; [split; [discriminate|intros; exfalso; lia]|].
      intros _. repeat split. eexists. reflexivity.
    + apply Z.leb_gt in H3. simpl. split; [split; [intros; lia|reflexivity]|].
      discriminate.
Qed.

Lemma feedRevision_decision_witness :
  0 <= SharedHash.currentVersion Examples.hash7
  /\ SharedHash.currentVersion Examples.hash7 + 2 < two64
  /\ (fst (SharedHash.feedRevision 10 [("b", "3")] Examples.hash7) = true
      <-> 10 = SharedHash.currentVersion Examples.hash7 + 1).
Proof.
  assert (Hv : SharedHash.currentVersion Examples.hash7 = 7) by (vm_compute; reflexivity).
  assert (H0 : 0 <= SharedHash.currentVersion Examples.hash7) by (rewrite Hv; lia).
  assert (H2 : SharedHash.currentVersion Examples.hash7 + 2 < two64)
    by (rewrite Hv; unfold two64; lia).
  split; [exact H0|]. split; [exact H2|].
  exact (proj1 (feedRevision_decision 10 [("b", "3")] Examples.hash7 H0 H2)).
Defined.

Section HashSequences.
Import SharedHash Observations.

Lemma feed_in_sequence_accepts (batches : list (list (string * string))) (h : t) :
  0 <= currentVersion h ->
  currentVersion h + Z.of_nat (length batches) + 1 < two64 ->
  exists h',
    feed_in_sequence batches h = (true, h')
    /\ currentVersion h' = currentVersion h + Z.of_nat (length batches)
    /\ contents h' = feedAll (concat batches) (contents h)
    /\ futureReply h' = futureReply h /\ qcl h' = qcl h.
Proof.
  revert h. induction batches as [|updates rest IH]; intros h H0 Htop.
  - exists h. simpl. repeat split. lia.
  - simpl length in Htop. rewrite Nat2Z.inj_succ in Htop.
    cbn [feed_in_sequence].
    rewrite feedRevision_accepts by lia.
    set (h1 := with_version _ _).
    destruct (IH h1) as (h' & Hrun & Hv & Hc & Hf & Hq).
    { subst h1. simpl. lia. }
    { subst h1. simpl. lia. }
    exists h'. split; [exact Hrun|].
    rewrite Hv, Hc, Hf, Hq. subst h1. simpl.
    rewrite Nat2Z.inj_succ, feedAll_app. repeat split. lia.
Qed.

End HashSequences.

(** X5.  Consecutive revisions are all accepted: feeding [v+1], [v+2], ...
    one after the other, as long as the version stays below the top of the
    range, succeeds each time, raises the version by the number of
    revisions, and leaves the contents the pairs of all of them give when
    applied in order. *)
Theorem consecutive_revisions_accepted
        (batches : list (list (string * string))) (h : SharedHash.t) :
  0 <= SharedHash.currentVersion h ->
  SharedHash.currentVersion h + Z.of_nat (length batches) + 1 < two64 ->
  exists h',
    Observations.feed_in_sequence batches h = (true, h')
    /\ SharedHash.currentVersion h'
       = SharedHash.currentVersion h + Z.of_nat (length batches)
    /\ SharedHash.contents h'
       = SharedHash.feedAll (concat batches) (SharedHash.contents h).
Proof.
  intros H0 Htop.
  destruct (feed_in_sequence_accepts batches h H0 Htop) as (h' & Hrun & Hv & Hc & _).
  exists h'. repeat split; assumption.
Qed.

Lemma consecutive_revisions_accepted_witness :
  0 <= SharedHash.currentVersion Examples.hash7
  /\ SharedHash.currentVersion Examples.hash7
     + Z.of_nat (length [[("a", "2")]; [("b", "3"); ("a", "")]]) + 1 < two64
  /\ exists h',
       Observations.feed_in_sequence [[("a", "2")]; [("b", "3"); ("a", "")]] Examples.hash7
       = (true, h')
       /\ SharedHash.currentVersion h'
          = SharedHash.currentVersion Examples.hash7
            + Z.of_nat (length [[("a", "2")]; [("b", "3"); ("a", "")]])
       /\ SharedHash.contents h'
          = SharedHash.feedAll (concat [[("a", "2")]; [("b", "3"); ("a", "")]])
                               (SharedHash.contents Examples.hash7).
Proof.
  assert (Hv : SharedHash.currentVersion Examples.hash7 = 7) by (vm_compute; reflexivity).
  assert (H0 : 0 <= SharedHash.currentVersion Examples.hash7) by (rewrite Hv; lia).
  assert (Htop : SharedHash.currentVersion Examples.hash7
                 + Z.of_nat (length [[("a", "2")]; [("b", "3"); ("a", "")]]) + 1 < two64)
    by (rewrite Hv; simpl; unfold two64; lia).
  split; [exact H0|]. split; [exact Htop|].
  exact (consecutive_revisions_accepted _ Examples.hash7 H0 Htop).
Defined.

(** X6.  A connection-established notification on a client whose replies
    all belong to requests it was given changes neither contents nor
    version: the future of the new VHGETALL replaces the old one before
    anything is checked, so a reply that had arrived for the old request and
    had not been applied yet is dropped. *)
Theorem reconnect_drops_unapplied_reply (epoch : Z) (h : SharedHash.t) :
  Observations.replies_issued (SharedHash.qcl h) ->
  let h' := SharedHash.notifyConnectionEstablished epoch h in
  SharedHash.contents h' = SharedHash.contents h
  /\ SharedHash.currentVersion h' = SharedHash.currentVersion h
  /\ SharedHash.futureReply h' = Some (length (ClientPort.requests (SharedHash.qcl h)))
  /\ ClientPort.replies (SharedHash.qcl h') !! length (ClientPort.requests (SharedHash.qcl h))
     = None.
Proof.
  intros Hissued h'. subst h'.
  assert (Hnone : ClientPort.replies (SharedHash.qcl h)
                  !! length (ClientPort.requests (SharedHash.qcl h)) = None).
  { destruct (ClientPort.replies (SharedHash.qcl h)
              !! length (ClientPort.requests (SharedHash.qcl h))) as [r|] eqn:Hr;
      [|reflexivity].
    apply Hissued in Hr. lia. }
  unfold SharedHash.notifyConnectionEstablished, SharedHash.checkFuture. simpl.
  rewrite Hnone. simpl. repeat split. exact Hnone.
Qed.

Lemma reconnect_drops_unapplied_reply_witness :
  let h := HashTrace.run
             [HashTrace.ReplyArrives 0 (Examples.vhgetall 7 [REDIS_REPLY_STRING "a";
                                                             REDIS_REPLY_STRING "1"])]
             Examples.hash0 in
  Observations.replies_issued (SharedHash.qcl h)
  /\ SharedHash.currentVersion (SharedHash.checkFuture h) = 7
  /\ SharedHash.currentVersion (SharedHash.notifyConnectionEstablished 1 h) = 0.
Proof.
  intros h.
  assert (Hissued : Observations.replies_issued (SharedHash.qcl h)).
  { intros id r Hid. subst h. simpl in Hid.
    destruct (decide (id = 0%nat)) as [->|Hne]; [simpl; lia|].
    rewrite lookup_insert_ne in Hid by congruence.
    rewrite lookup_empty in Hid. discriminate Hid. }
  split; [exact Hissued|]. split; [reflexivity|].
  exact (proj1 (proj2 (reconnect_drops_unapplied_reply 1 h Hissued))).
Defined.

(** X7.  A read sees a resilver reply as soon as it has arrived: when the
    awaited reply is there and well formed, [get] returns for every field
    the value of its last pair in the reply (nothing for a field the reply
    does not have, whatever the hash held), [getCurrentVersion] returns the
    reply's revision, and the future is consumed. *)
Theorem read_applies_arrived_reply (h : SharedHash.t) (id : nat)
        (reply : redisReplyPtr) (n : Z) (elems : list redisReply) (field : string) :
  SharedHash.futureReply h = Some id ->
  ClientPort.replies (SharedHash.qcl h) !! id = Some reply ->
  Wording.resilver_shape reply = Some (n, elems) ->
  fst (SharedHash.get field h) = Wording.last_value field (Wording.decode_pairs elems)
  /\ fst (SharedHash.getCurrentVersion h) = wrap64 n
  /\ SharedHash.futureReply (snd (SharedHash.get field h)) = None.
Proof.
  intros Hfut Hreply Hshape.
  unfold SharedHash.get, SharedHash.getCurrentVersion, SharedHash.checkFuture.
  rewrite Hfut, Hreply. simpl fst. simpl snd.
  destruct (handleResponse_contents reply (SharedHash.with_future None h)) as [Hc Hv].
  destruct (handleResponse_frame reply (SharedHash.with_future None h)) as (_ & _ & Hf).
  rewrite Hc, Hv, Hf, Hshape. unfold Wording.decoded_map.
  split; [apply lookup_decoded|]. split; reflexivity.
Qed.

Lemma read_applies_arrived_reply_witness :
  let reply := Examples.vhgetall 11 [REDIS_REPLY_STRING "b"; REDIS_REPLY_STRING "3"] in
  let h := HashTrace.run [HashTrace.ConnectionEstablished 1; HashTrace.ReplyArrives 1 reply]
                         Examples.hash7 in
  SharedHash.futureReply h = Some 1%nat
  /\ ClientPort.replies (SharedHash.qcl h) !! 1%nat = Some reply
  /\ fst (SharedHash.get "a" h) = None
  /\ fst (SharedHash.getCurrentVersion h) = wrap64 11.
Proof.
  intros reply h.
  assert (Hfut : SharedHash.futureReply h = Some 1%nat) by reflexivity.
  assert (Hreply : ClientPort.replies (SharedHash.qcl h) !! 1%nat = Some reply)
    by (vm_compute; reflexivity).
  assert (Hshape : Wording.resilver_shape reply
                   = Some (11, [REDIS_REPLY_STRING "b"; REDIS_REPLY_STRING "3"]))
    by reflexivity.
  split; [exact Hfut|]. split; [exact Hreply|].
  destruct (read_applies_arrived_reply h 1%nat reply 11 _ "a" Hfut Hreply Hshape)
    as (Hget & Hver & _).
  split; [exact Hget|exact Hver].
Defined.

(** ** [QClient]: the writer's queue under [feed], [cleanup] and [connect] *)

Section Queue.
Import QClient Observations.

Lemma history_satisfy reply w :
  history (WriterThread.satisfy reply w) = history w.
Proof.
  unfold history, WriterThread.satisfy.
  destruct (WriterThread.staged w) as [|req rest] eqn:Hs; [rewrite Hs; reflexivity|].
  simpl. rewrite map_app, <- app_assoc. reflexivity.
Qed.



(** What [feed] leaves alone, whatever it is given. *)
Lemma feed_frame (parsed : list ReaderResult) (q q' : t) (ok : bool) :
  feed parsed q = Some (ok, q') ->
  members q' = members q /\ nextMember q' = nextMember q
  /\ targetEndpoint q' = targetEndpoint q /\ networkStream q' = networkStream q
  /\ shutdown q' = shutdown q /\ transparentRedirects q' = transparentRedirects q
  /\ handshake q' = handshake q
  /\ history (writerThread q') = history (writerThread q)
  /\ (ok = true \/ transparentRedirects q = false ->
      redirectedEndpoint q' = redirectedEndpoint q).
Proof.
  revert q. induction parsed as [|[|rr] rest IH]; intros q; cbn [feed].
  - intros Heq. injection Heq as Hok Hq. subst ok q'. repeat split.
  - intros Heq. injection Heq as Hok Hq. subst ok q'. repeat split.
  - destruct (handshakePending q) eqn:Hp.
    + destruct (handshake q) as [hs|] eqn:Hh; [|discriminate].
      destruct (negb (validateResponse hs rr)).
      { intros Heq. injection Heq as Hok Hq. subst ok q'. repeat split; assumption. }
      destruct (redirect_target _ rr) as [e|] eqn:Hred.
      * intros Heq. injection Heq as Hok Hq. subst ok q'. simpl.
        repeat split; try assumption.
        intros [Habs|Hoff]; [discriminate|].
        unfold redirect_target in Hred. simpl in Hred.
        destruct rr; try discriminate. rewrite Hoff in Hred. discriminate.
      * intros Hfeed. apply IH in Hfeed. simpl in Hfeed.
        rewrite history_satisfy, Hh in Hfeed. exact Hfeed.
    + destruct (redirect_target q rr) as [e|] eqn:Hred.
      * intros Heq. injection Heq as Hok Hq. subst ok q'. simpl. repeat split.
        intros [Habs|Hoff]; [discriminate|].
        unfold redirect_target in Hred.
        destruct rr; try discriminate. rewrite Hoff in Hred. discriminate.
      * intros Hfeed. apply IH in Hfeed. simpl in Hfeed.
        rewrite history_satisfy in Hfeed. exact Hfeed.
Qed.

(** Ordinary replies with no handshake check pending: one [satisfy] each. *)
Lemma feed_ordinary (rs : list redisReply) (q : t) :
  handshakePending q = false ->
  Forall (ordinary q) rs ->
  exists q',
    feed (map ReaderReply rs) q = Some (true, q')
    /\ WriterThread.resolved (writerThread q')
       = WriterThread.resolved (writerThread q)
         ++ zip (WriterThread.staged (writerThread q)) (map Some rs)
    /\ WriterThread.staged (writerThread q')
       = drop (length rs) (WriterThread.staged (writerThread q)).
Proof.
  revert q. induction rs as [|rr rs IH]; intros q Hp Hord.
  - exists q. simpl. rewrite zip_with_nil_r, app_nil_r. repeat split.
  - apply Forall_cons in Hord as [Hrr Hrs].
    cbn [map feed]. rewrite Hp. unfold ordinary in Hrr. rewrite Hrr.
    set (q1 := with_writer _ q).
    destruct (IH q1) as (q' & Hfeed & Hres & Hst).
    { subst q1. simpl. exact Hp. }
    { eapply Forall_impl; [exact Hrs|]. intros r Hr. exact Hr. }
    exists q'. split; [exact Hfeed|].
    rewrite Hres, Hst. subst q1. simpl. unfold WriterThread.satisfy.
    destruct (WriterThread.staged (writerThread q)) as [|req rest] eqn:Hs; simpl.
    + rewrite Hs, drop_nil. split; reflexivity.
    + rewrite <- app_assoc. split; reflexivity.
Qed.

Lemma feed_app (l1 l2 : list ReaderResult) (q : t) :
  feed (l1 ++ l2) q
  = match feed l1 q with
    | Some (true, q1) => feed l2 q1
    | other => other
    end.
Proof.
  revert q. induction l1 as [|[|rr] l1 IH]; intros q; cbn [app feed].
  - reflexivity.
  - reflexivity.
  - destruct (handshakePending q).
    + destruct (handshake q) as [hs|]; [|reflexivity].
      destruct (negb (validateResponse hs rr)); [reflexivity|].
      destruct (redirect_target _ rr); [reflexivity|]. apply IH.
    + destruct (redirect_target q rr); [reflexivity|]. apply IH.
Qed.

End Queue.

(** X8.  Replies complete requests first in, first out: [feed], given
    replies that are not redirects while no handshake check is pending,
    returns true, pairs the k-th reply with the k-th oldest staged request,
    and leaves the requests behind them staged; replies beyond the last
    staged request complete nothing. *)
Theorem feed_completes_in_order (rs : list redisReply) (q : QClient.t) :
  QClient.handshakePending q = false ->
  Forall (Observations.ordinary q) rs ->
  exists q',
    QClient.feed (map QClient.ReaderReply rs) q = Some (true, q')
    /\ WriterThread.resolved (QClient.writerThread q')
       = WriterThread.resolved (QClient.writerThread q)
         ++ zip (WriterThread.staged (QClient.writerThread q)) (map Some rs)
    /\ WriterThread.staged (QClient.writerThread q')
       = drop (length rs) (WriterThread.staged (QClient.writerThread q)).
Proof. apply feed_ordinary. Qed.

Lemma feed_completes_in_order_witness :
  let q := QClient.execute ["GET"; "y"] Examples.plain_busy in
  let rs := [REDIS_REPLY_STRING "hello"; REDIS_REPLY_NIL; REDIS_REPLY_INTEGER 1] in
  QClient.handshakePending q = false
  /\ Forall (Observations.ordinary q) rs
  /\ exists q',
       QClient.feed (map QClient.ReaderReply rs) q = Some (true, q')
       /\ WriterThread.resolved (QClient.writerThread q')
          = WriterThread.resolved (QClient.writerThread q)
            ++ zip (WriterThread.staged (QClient.writerThread q)) (map Some rs)
       /\ WriterThread.staged (QClient.writerThread q')
          = drop (length rs) (WriterThread.staged (QClient.writerThread q)).
Proof.
  intros q rs.
  assert (Hp : QClient.handshakePending q = false) by reflexivity.
  assert (Hord : Forall (Observations.ordinary q) rs).
  { subst rs. repeat constructor. }
  split; [exact Hp|]. split; [exact Hord|].
  exact (feed_completes_in_order rs q Hp Hord).
Defined.



(** X10.  [feed] touches the writer, the handshake mark and the pending
    redirect only: members, round-robin index, target, stream, shutdown flag
    and options are as before.  The pending redirect itself is as before
    whenever [feed] returns true, and always when transparent redirects are
    off. *)
Theorem feed_changes_only_queue_and_redirect
        (parsed : list QClient.ReaderResult) (q q' : QClient.t) (ok : bool) :
  QClient.feed parsed q = Some (ok, q') ->
  QClient.members q' = QClient.members q
  /\ QClient.nextMember q' = QClient.nextMember q
  /\ QClient.targetEndpoint q' = QClient.targetEndpoint q
  /\ QClient.networkStream q' = QClient.networkStream q
  /\ QClient.shutdown q' = QClient.shutdown q
  /\ QClient.transparentRedirects q' = QClient.transparentRedirects q
  /\ (ok = true \/ QClient.transparentRedirects q = false ->
      QClient.redirectedEndpoint q' = QClient.redirectedEndpoint q).
Proof.
  intros Hfeed.
  destruct (feed_frame _ _ _ _ Hfeed) as (Hm & Hn & Ht & Hs & Hd & Hr & _ & _ & Hred).
  repeat split; assumption.
Qed.

Lemma feed_changes_only_queue_and_redirect_witness :
  let q := QClient.with_handshakePending false (Examples.fresh false None) in
  let q := QClient.execute ["GET"; "x"] q in
  exists q',
    QClient.feed [QClient.ReaderReply (REDIS_REPLY_ERROR "MOVED 5 B:6380")] q = Some (true, q')
    /\ QClient.redirectedEndpoint q' = QClient.redirectedEndpoint q.
Proof.
  intros q0 q.
  assert (Hfeed : QClient.feed [QClient.ReaderReply (REDIS_REPLY_ERROR "MOVED 5 B:6380")] q
                  = Some (true, QClient.with_writer
                                  (WriterThread.satisfy
                                     (Some (REDIS_REPLY_ERROR "MOVED 5 B:6380"))
                                     (QClient.writerThread q)) q)) by reflexivity.
  eexists. split; [exact Hfeed|].
  exact (proj2 (proj2 (proj2 (proj2 (proj2 (proj2
    (feed_changes_only_queue_and_redirect _ _ _ _ Hfeed)))))) (or_intror eq_refl)).
Defined.

(** X11.  Replies may arrive in any number of chunks: feeding one list of
    replies and then another gives what feeding them at once gives, and once
    [feed] has returned false (reader error, refused handshake, redirect)
    nothing after that point is looked at. *)
Theorem feed_in_chunks (l1 l2 : list QClient.ReaderResult) (q : QClient.t) :
  QClient.feed (l1 ++ l2) q
  = match QClient.feed l1 q with
    | Some (true, q1) => QClient.feed l2 q1
    | other => other
    end.
Proof. apply feed_app. Qed.

(** ** [QClient]: successive connection attempts *)

Section RoundRobin.
Import QClient Observations.
Context `{EndpointOps}.

Lemma connect_times_targets (w : World) (n : nat) (q : t) :
  (nextMember q < length (members q))%nat ->
  Endpoint_empty (redirectedEndpoint q) = true ->
  exists targets q',
    connect_times w n q = Some (targets, q')
    /\ length targets = n
    /\ members q' = members q
    /\ nextMember q' = ((nextMember q + n) mod length (members q))%nat
    /\ Endpoint_empty (redirectedEndpoint q') = true
    /\ forall k, (k < n)%nat ->
         targets !! k
         = Wording.intercepted w
             <$> members q !! ((nextMember q + k) mod length (members q))%nat.
Proof.
  revert q. induction n as [|n IH]; intros q Hin Hempty.
  - exists [], q. simpl. rewrite Nat.add_0_r, Nat.mod_small by exact Hin.
    repeat split; try assumption. intros k Hk. lia.
  - destruct (lookup_lt_is_Some_2 _ _ Hin) as [e He].
    destruct (connect_fields w q e He) as (q1 & Hc & Hm & Hn & Ht & _ & Hr).
    rewrite Hempty in Ht.
    destruct (IH q1) as (targets & q' & Hrun & Hlen & Hm' & Hn' & He' & Hlook).
    { rewrite Hn, Hm. apply Nat.mod_upper_bound. lia. }
    { rewrite Hr. apply Endpoint_default_empty. }
    exists (targetEndpoint q1 :: targets), q'.
    cbn [connect_times]. rewrite Hc, Hrun.
    split; [reflexivity|]. split; [simpl; lia|].
    split; [congruence|]. split.
    { rewrite Hn', Hn, Hm.
      rewrite Nat.Div0.add_mod_idemp_l. f_equal. lia. }
    split; [exact He'|].
    intros [|k] Hk.
    + simpl. rewrite Nat.add_0_r, Nat.mod_small by exact Hin.
      rewrite He, Ht. reflexivity.
    + simpl. rewrite Hlook by lia. rewrite Hm, Hn.
      rewrite Nat.Div0.add_mod_idemp_l. do 3 f_equal. lia.
Qed.

End RoundRobin.

(** X12.  Round robin: as many connection attempts in a row as there are
    members, with no redirect pending, go to every member once, in the
    cyclic order of the list starting at [nextMember] (each replaced by its
    image in the intercept table, if it has one), and bring [nextMember]
    back to where it was. *)
Theorem round_robin_visits_every_member `{EndpointOps}
        (w : QClient.World) (q : QClient.t) :
  (QClient.nextMember q < length (QClient.members q))%nat ->
  Endpoint_empty (QClient.redirectedEndpoint q) = true ->
  exists targets q',
    Observations.connect_times w (length (QClient.members q)) q = Some (targets, q')
    /\ length targets = length (QClient.members q)
    /\ QClient.nextMember q' = QClient.nextMember q
    /\ forall k, (k < length (QClient.members q))%nat ->
         targets !! k
         = Wording.intercepted w
             <$> QClient.members q
                 !! ((QClient.nextMember q + k) mod length (QClient.members q))%nat.
Proof.
  intros Hin Hempty.
  destruct (connect_times_targets w (length (QClient.members q)) q Hin Hempty)
    as (targets & q' & Hrun & Hlen & _ & Hn & _ & Hlook).
  exists targets, q'. split; [exact Hrun|]. split; [exact Hlen|]. split; [|exact Hlook].
  rewrite Hn. rewrite <- Nat.Div0.add_mod_idemp_r, Nat.Div0.mod_same, Nat.add_0_r.
  apply Nat.mod_small. exact Hin.
Qed.

Lemma round_robin_visits_every_member_witness :
  let q := QClient.with_nextMember 1 (Examples.fresh true None) in
  (QClient.nextMember q < length (QClient.members q))%nat
  /\ Endpoint_empty (QClient.redirectedEndpoint q) = true
  /\ exists targets q',
       Observations.connect_times Examples.world1 (length (QClient.members q)) q
       = Some (targets, q')
       /\ length targets = length (QClient.members q)
       /\ QClient.nextMember q' = QClient.nextMember q.
Proof.
  intros q.
  assert (Hin : (QClient.nextMember q < length (QClient.members q))%nat)
    by (subst q; simpl; lia).
  assert (Hempty : Endpoint_empty (QClient.redirectedEndpoint q) = true) by reflexivity.
  split; [exact Hin|]. split; [exact Hempty|].
  destruct (round_robin_visits_every_member Examples.world1 q Hin Hempty)
    as (targets & q' & Hrun & Hlen & Hn & _).
  exists targets, q'. split; [exact Hrun|]. split; [exact Hlen|exact Hn].
Defined.

(** X13.  The intercept table is looked at once per attempt, through
    [addIntercept] and [clearIntercepts] as follows: after
    [addIntercept(host, port, host2, port2)] an attempt that has chosen
    (host, port) goes to (host2, port2), even if (host2, port2) has an entry
    of its own; an attempt that has chosen another endpoint goes where it
    went before the entry was added; after [clearIntercepts] every attempt
    goes to the endpoint chosen. *)
Theorem intercept_added_then_used `{EndpointOps}
        (table : QClient.Intercepts) (reach : Endpoint -> bool)
        (host2 : string) (port2 : Z) (other : Endpoint) (q : QClient.t) (e : Endpoint) :
  QClient.members q !! QClient.nextMember q = Some e ->
  Endpoint_empty (QClient.redirectedEndpoint q) = true ->
  (exists q', QClient.connect
                (QClient.mkWorld
                   (QClient.addIntercept (getHost e) (getPort e) host2 port2 table) reach) q
              = Some q'
              /\ QClient.targetEndpoint q' = mkEndpoint host2 port2)
  /\ ((getHost other, getPort other) <> (getHost e, getPort e) ->
      exists q1 q2,
        QClient.connect
          (QClient.mkWorld
             (QClient.addIntercept (getHost other) (getPort other) host2 port2 table)
             reach) q = Some q1
        /\ QClient.connect (QClient.mkWorld table reach) q = Some q2
        /\ QClient.targetEndpoint q1 = QClient.targetEndpoint q2)
  /\ (exists q', QClient.connect
                   (QClient.mkWorld (QClient.clearIntercepts table) reach) q = Some q'
                 /\ QClient.targetEndpoint q' = e).
Proof.
  intros He Hempty. unfold QClient.Intercepts in table.
  split; [|split].
  - destruct (connect_fields
                (QClient.mkWorld
                   (QClient.addIntercept (getHost e) (getPort e) host2 port2 table) reach)
                q e He) as (q' & Hc & _ & _ & Ht & _).
    exists q'. split; [exact Hc|]. rewrite Ht, Hempty.
    unfold Wording.intercepted, QClient.addIntercept, QClient.Intercepts.
    cbn [QClient.intercepts].
    rewrite lookup_insert_eq. reflexivity.
  - intros Hne.
    destruct (connect_fields
                (QClient.mkWorld
                   (QClient.addIntercept (getHost other) (getPort other) host2 port2 table)
                   reach) q e He) as (q1 & Hc1 & _ & _ & Ht1 & _).
    destruct (connect_fields (QClient.mkWorld table reach) q e He)
      as (q2 & Hc2 & _ & _ & Ht2 & _).
    exists q1, q2. split; [exact Hc1|]. split; [exact Hc2|].
    rewrite Ht1, Ht2, Hempty.
    unfold Wording.intercepted, QClient.addIntercept, QClient.Intercepts.
    cbn [QClient.intercepts].
    rewrite lookup_insert_ne by exact Hne. reflexivity.
  - destruct (connect_fields (QClient.mkWorld (QClient.clearIntercepts table) reach)
                q e He) as (q' & Hc & _ & _ & Ht & _).
    exists q'. split; [exact Hc|]. rewrite Ht, Hempty.
    unfold Wording.intercepted, QClient.clearIntercepts, QClient.Intercepts.
    cbn [QClient.intercepts].
    rewrite lookup_empty. destruct e; reflexivity.
Qed.

Lemma intercept_added_then_used_witness :
  let table := QClient.addIntercept "L" 1 "M" 2 ∅ in
  let q := Examples.fresh true None in
  QClient.members q !! QClient.nextMember q = Some Examples.A
  /\ Endpoint_empty (QClient.redirectedEndpoint q) = true
  /\ exists q', QClient.connect
                  (QClient.mkWorld (QClient.addIntercept "A" 6379 "L" 1 table)
                                   (fun _ => true)) q = Some q'
                /\ QClient.targetEndpoint q' = mkEndpoint "L" 1.
Proof.
  intros table q.
  assert (He : QClient.members q !! QClient.nextMember q = Some Examples.A) by reflexivity.
  assert (Hempty : Endpoint_empty (QClient.redirectedEndpoint q) = true) by reflexivity.
  split; [exact He|]. split; [exact Hempty|].
  exact (proj1 (intercept_added_then_used table (fun _ => true) "L" 1 Examples.B q
                  Examples.A He Hempty)).
Defined.

(** X14.  The whole redirect: a well-formed MOVED reply makes [feed] return
    false; the [connect] that follows goes to the endpoint of the reply
    (through the intercept table) instead of the next member, with the
    redirection marked active; the requests that were staged, the one the
    MOVED reply answered included, are resolved with the nil reply rather
    than sent to the new endpoint; and the attempt after that one goes to a
    member again. *)
Theorem moved_then_reconnect `{EndpointOps} (w : QClient.World) (q : QClient.t)
        (str : string) (e : Endpoint) :
  QClient.transparentRedirects q = true ->
  QClient.handshakePending q = false ->
  String.prefix "MOVED " str = true ->
  Wording.moved_endpoint str = Some e ->
  Endpoint_empty e = false ->
  (QClient.nextMember q < length (QClient.members q))%nat ->
  exists q1 q2 q3 m,
    QClient.feed [QClient.ReaderReply (REDIS_REPLY_ERROR str)] q = Some (false, q1)
    /\ QClient.connect w q1 = Some q2
    /\ QClient.targetEndpoint q2 = Wording.intercepted w e
    /\ QClient.redirectionActive q2 = true
    /\ WriterThread.resolved (QClient.writerThread q2)
       = WriterThread.resolved (QClient.writerThread q)
         ++ map (fun req => (req, None)) (WriterThread.staged (QClient.writerThread q))
    /\ QClient.connect w q2 = Some q3
    /\ QClient.members q !! QClient.nextMember q2 = Some m
    /\ QClient.targetEndpoint q3 = Wording.intercepted w m
    /\ QClient.redirectionActive q3 = false.
Proof.
  intros Ht Hp Hpre Hmoved Hne Hin.
  assert (Hfeed : QClient.feed [QClient.ReaderReply (REDIS_REPLY_ERROR str)] q
                  = Some (false, QClient.with_redirected e q)).
  { rewrite feed_reply by (rewrite Hp; discriminate).
    rewrite (redirect_target_moved q str Ht Hpre), Hmoved.
    rewrite (with_handshakePending_id q Hp). reflexivity. }
  set (q1 := QClient.with_redirected e q) in *.
  destruct (lookup_lt_is_Some_2 _ _ Hin) as [m0 Hm0].
  destruct (connect_fields w q1 m0 Hm0) as (q2 & Hc2 & Hm2 & Hn2 & Ht2 & Ha2 & Hr2).
  destruct (connect_writer w q1 q2 Hc2) as (_ & _ & Hres & _).
  assert (Hin2 : (QClient.nextMember q2 < length (QClient.members q2))%nat).
  { rewrite Hn2, Hm2. apply Nat.mod_upper_bound. subst q1. simpl. lia. }
  destruct (lookup_lt_is_Some_2 _ _ Hin2) as [m Hm].
  destruct (connect_fields w q2 m Hm) as (q3 & Hc3 & _ & _ & Ht3 & Ha3 & _).
  exists q1, q2, q3, m.
  split; [exact Hfeed|]. split; [exact Hc2|].
  simpl in Ht2, Ha2. rewrite Hne in Ht2, Ha2.
  split; [exact Ht2|]. split; [exact Ha2|]. split; [exact Hres|].
  split; [exact Hc3|]. split; [rewrite <- Hm; rewrite Hm2; reflexivity|].
  rewrite Hr2, Endpoint_default_empty in Ht3, Ha3.
  split; [exact Ht3|exact Ha3].
Qed.

Lemma moved_then_reconnect_witness :
  QClient.transparentRedirects Examples.plain_busy = true
  /\ QClient.handshakePending Examples.plain_busy = false
  /\ String.prefix "MOVED " "MOVED 5 B:6380" = true
  /\ Wording.moved_endpoint "MOVED 5 B:6380" = Some Examples.B
  /\ Endpoint_empty Examples.B = false
  /\ (QClient.nextMember Examples.plain_busy
      < length (QClient.members Examples.plain_busy))%nat
  /\ exists q1 q2,
       QClient.feed [QClient.ReaderReply (REDIS_REPLY_ERROR "MOVED 5 B:6380")]
                    Examples.plain_busy = Some (false, q1)
       /\ QClient.connect Examples.world1 q1 = Some q2
       /\ QClient.targetEndpoint q2 = Wording.intercepted Examples.world1 Examples.B.
Proof.
  assert (Ht : QClient.transparentRedirects Examples.plain_busy = true) by reflexivity.
  assert (Hp : QClient.handshakePending Examples.plain_busy = false) by reflexivity.
  assert (Hpre : String.prefix "MOVED " "MOVED 5 B:6380" = true) by reflexivity.
  assert (Hm : Wording.moved_endpoint "MOVED 5 B:6380" = Some Examples.B) by reflexivity.
  assert (Hne : Endpoint_empty Examples.B = false) by reflexivity.
  assert (Hin : (QClient.nextMember Examples.plain_busy
                 < length (QClient.members Examples.plain_busy))%nat)
    by (vm_compute; lia).
  repeat (split; [assumption|]).
  destruct (moved_then_reconnect Examples.world1 Examples.plain_busy _ _ Ht Hp Hpre Hm Hne Hin)
    as (q1 & q2 & _ & _ & Hfeed & Hc & Htarget & _).
  exists q1, q2. split; [exact Hfeed|]. split; [exact Hc|exact Htarget].
Defined.

(** X15.  [cleanup] tears everything down and is idempotent: after it no
    request is staged, there is no stream and no reader and the writer is
    not active, and a second [cleanup] (as the destructor runs after the
    last one of the event loop) changes nothing; in particular no request
    is resolved twice. *)
Theorem cleanup_idempotent (q : QClient.t) :
  WriterThread.staged (QClient.writerThread (QClient.cleanup q)) = []
  /\ WriterThread.active (QClient.writerThread (QClient.cleanup q)) = None
  /\ QClient.networkStream (QClient.cleanup q) = None
  /\ QClient.reader (QClient.cleanup q) = false
  /\ QClient.cleanup (QClient.cleanup q) = QClient.cleanup q
  /\ WriterThread.resolved (QClient.writerThread (QClient.destroy (QClient.cleanup q)))
     = WriterThread.resolved (QClient.writerThread (QClient.cleanup q)).
Proof.
  split; [reflexivity|]. split; [reflexivity|]. split; [reflexivity|].
  split; [reflexivity|]. split.
  - unfold QClient.cleanup, WriterThread.clearPending, WriterThread.deactivate. simpl.
    rewrite app_nil_r. reflexivity.
  - unfold QClient.destroy, QClient.cleanup, WriterThread.clearPending. simpl.
    rewrite app_nil_r. reflexivity.
Qed.

(** ** [QClient]: the event loop *)

Section Loop.
Import QClient EventLoop.
Context `{EndpointOps}.

(** The stream, the shutdown flag and the writer's activation after
    [connect]. *)
Lemma connect_stream (w : World) (q q' : t) :
  connect w q = Some q' ->
  networkStream q'
  = Some (mkStream (targetEndpoint q') (reachable w (targetEndpoint q')))
  /\ shutdown q' = shutdown q
  /\ WriterThread.active (writerThread q')
     = (if reachable w (targetEndpoint q') then Some (targetEndpoint q') else None)
  /\ available q' = (if reachable w (targetEndpoint q') then available q else false).
Proof.
  unfold connect.
  change (members (cleanup q)) with (members q).
  change (nextMember (cleanup q)) with (nextMember q).
  destruct (members q !! nextMember q) as [e|]; [|discriminate].
  set (q3 := with_nextMember _ (with_target e (cleanup q))).
  set (q5 := discoverIntercept w (processRedirection q3)).
  set (q6 := with_reader true q5).
  assert (Hshut : shutdown q5 = shutdown q).
  { subst q5 q3. unfold discoverIntercept, processRedirection. simpl.
    destruct (Endpoint_empty (redirectedEndpoint q)); [destruct (redirectionActive q)|];
      simpl; destruct (intercepts w !! _) as [[h2 p2]|]; reflexivity. }
  assert (Havail : available q5 = available q).
  { subst q5 q3. unfold discoverIntercept, processRedirection. simpl.
    destruct (Endpoint_empty (redirectedEndpoint q)); [destruct (redirectionActive q)|];
      simpl; destruct (intercepts w !! _) as [[h2 p2]|]; reflexivity. }
  assert (Hactive : WriterThread.active (writerThread q5) = None).
  { subst q5.
    rewrite (proj1 (discoverIntercept_writer w (processRedirection q3))).
    rewrite (proj1 (processRedirection_writer q3)). reflexivity. }
  assert (Htcp :
    networkStream (connectTCP w q6)
    = Some (mkStream (targetEndpoint (connectTCP w q6))
                     (reachable w (targetEndpoint (connectTCP w q6))))
    /\ shutdown (connectTCP w q6) = shutdown q
    /\ WriterThread.active (writerThread (connectTCP w q6))
       = (if reachable w (targetEndpoint (connectTCP w q6))
          then Some (targetEndpoint (connectTCP w q6)) else None)
    /\ available (connectTCP w q6)
       = (if reachable w (targetEndpoint (connectTCP w q6)) then available q else false)).
  { rewrite (proj1 (connectTCP_frame w q6)).
    unfold connectTCP. cbn [stream_ok].
    destruct (reachable w (targetEndpoint q6)) eqn:Hreach; simpl;
      rewrite ?Hshut, ?Hactive, ?Havail; repeat split. }
  destruct (handshake (with_handshakePending false (connectTCP w q6)));
    intros Heq; injection Heq as Hq; subst q'; simpl; exact Htcp.
Qed.

Lemma stream_is_ok_ext (q1 q2 : t) :
  networkStream q1 = networkStream q2 -> stream_is_ok q1 = stream_is_ok q2.
Proof. unfold stream_is_ok. intros ->. reflexivity. Qed.

(** How the inner loop can be left, and in what state. *)
Lemma inner_loop_exit (ps : list Pass) (s s' : LoopState) (reason : InnerExit) :
  owns_lock s = true ->
  inner_loop ps s = (reason, s') ->
  match reason with
  | StreamNotOk => stream_is_ok (client s) = false /\ s' = s
  | PollBroke =>
      owns_lock s' = false /\ exists p, p ∈ ps /\ poll_result p = PollFailed
  | ShutdownSeen => owns_lock s' = true /\ shutdown (client s') = true
  | ConnectionDied | FeedFailed =>
      owns_lock s' = true /\ backoff s' = 1
      /\ shutdown (client s') = false /\ stream_is_ok (client s) = true
  | Waiting => owns_lock s' = true
  | NullHandshake => True
  end
  /\ (backoff s' = backoff s \/ backoff s' = 1)
  /\ members (client s') = members (client s)
  /\ nextMember (client s') = nextMember (client s)
  /\ targetEndpoint (client s') = targetEndpoint (client s)
  /\ networkStream (client s') = networkStream (client s)
  /\ Observations.history (writerThread (client s'))
     = Observations.history (writerThread (client s)).
Proof.
  revert s. induction ps as [|p rest IH]; intros s Howns Hrun; cbn [inner_loop] in Hrun.
  - destruct (stream_is_ok (client s)) eqn:Hok; simpl in Hrun;
      injection Hrun as <- <-; repeat split; auto.
  - destruct (stream_is_ok (client s)) eqn:Hok; simpl negb in Hrun; cbv iota in Hrun;
      [|injection Hrun as <- <-; repeat split; auto].
    cbn [bytesRead status backoff client owns_lock] in Hrun.
    match goal with
    | |- ?G =>
        assert (Hrec : forall q4 : t,
          members q4 = members (client s) -> nextMember q4 = nextMember (client s) ->
          targetEndpoint q4 = targetEndpoint (client s) ->
          networkStream q4 = networkStream (client s) ->
          Observations.history (writerThread q4)
          = Observations.history (writerThread (client s)) ->
          inner_loop rest (mkLoop q4 1 (recv_status p) true) = (reason, s') -> G)
    end.
    { intros q4 Hm Hn Ht Hs Hh Hrest.
      destruct (IH (mkLoop q4 1 (recv_status p) true) eq_refl Hrest)
        as (Hexit & Hb & Hm' & Hn' & Ht' & Hs' & Hh').
      cbn [client backoff] in Hexit, Hb, Hm', Hn', Ht', Hs', Hh'.
      split.
      - destruct reason; try exact Hexit.
        + destruct Hexit as [Hnot _].
          rewrite (stream_is_ok_ext q4 (client s) Hs), Hok in Hnot. discriminate Hnot.
        + destruct Hexit as [Ho (p0 & Hp0 & Hpoll)].
          split; [exact Ho|]. exists p0.
          split; [apply list_elem_of_further, Hp0|exact Hpoll].
        + destruct Hexit as (Ho & Hb1 & Hsd & _). repeat split; assumption.
        + destruct Hexit as (Ho & Hb1 & Hsd & _). repeat split; assumption.
      - split; [destruct Hb as [Hb|Hb]; right; exact Hb|].
        rewrite Hm', Hn', Ht', Hs', Hh'. repeat split; assumption. }
    destruct (if bytesRead (status s) <=? 0
              then match poll_result p with
                   | PollFailed => true
                   | _ => false
                   end
              else false) eqn:Hbroke.
    { injection Hrun as <- <-. simpl. split; [|repeat split; auto].
      split; [reflexivity|]. exists p. split; [apply list_elem_of_here|].
      destruct (bytesRead (status s) <=? 0); [|discriminate].
      destruct (poll_result p); try discriminate. reflexivity. }
    cbn [shutdown with_shutdown] in Hrun.
    destruct (shutdown (client s) || shutdown_request p) eqn:Hshut.
    { injection Hrun as <- <-. simpl. repeat split; auto. }
    cbn [connectionAlive status] in Hrun.
    destruct (connectionAlive (recv_status p)); simpl negb in Hrun; cbv iota in Hrun.
    2:{ injection Hrun as <- <-. simpl. repeat split; auto. }
    cbn [bytesRead status] in Hrun.
    destruct (0 <? bytesRead (recv_status p)).
    + destruct (feed (recv_parsed p) (with_shutdown false (client s)))
        as [[[|] q4]|] eqn:Hfeed.
      * destruct (feed_frame _ _ _ _ Hfeed) as (Hm & Hn & Ht & Hs & Hd & _ & _ & Hh & _).
        apply (Hrec q4); assumption.
      * destruct (feed_frame _ _ _ _ Hfeed) as (Hm & Hn & Ht & Hs & Hd & _ & _ & Hh & _).
        injection Hrun as <- <-. simpl. repeat split; auto.
      * injection Hrun as <- <-. simpl. repeat split; auto.
    + apply (Hrec (with_shutdown false (client s))); try reflexivity. exact Hrun.
Qed.

End Loop.

Section Turns.
Import QClient EventLoop.
Context `{EndpointOps}.

Lemma turn_end_cases (tn : Turn) (s : LoopState) :
  match turn_end tn s with
  | Reconnected slept b' q' =>
      owns_lock s = true /\ shutdown (client s) = false
      /\ shutdown_after tn = false
      /\ slept = backoff s
      /\ b' = (if slept <? 2048 then slept + 1 else slept)
      /\ connect (world tn) (with_shutdown false (client s)) = Some q'
  | Ended q' =>
      exists ok,
        (shutdown (client s) = true \/ shutdown_after tn = true)
        /\ feed (leftover tn) (with_shutdown true (client s)) = Some (ok, q')
  | UnlockNotOwned q' =>
      owns_lock s = false
      /\ shutdown (client s) = false /\ shutdown_after tn = false
      /\ q' = with_shutdown false (client s)
  | Blocked _ => False
  | Undefined => True
  end.
Proof.
  unfold turn_end, eventLoop_turn. cbn [shutdown with_shutdown].
  destruct (shutdown (client s) || shutdown_after tn) eqn:Hshut.
  - simpl negb. cbn [andb].
    destruct (feed (leftover tn) (with_shutdown true (client s))) as [[ok q2]|] eqn:Hfeed;
      [|exact I].
    exists ok. split; [|reflexivity].
    apply orb_true_iff in Hshut. exact Hshut.
  - apply orb_false_iff in Hshut as [Hs1 Hs2]. simpl negb. cbn [andb].
    destruct (owns_lock s) eqn:Ho; simpl negb; cbv iota.
    + destruct (connect (world tn) (with_shutdown false (client s))) as [q2|] eqn:Hc;
        [|exact I].
      repeat split; assumption.
    + repeat split; assumption.
Qed.

(** What a turn has gone through, by the way it ends. *)
Lemma turn_cases (tn : Turn) (b : Z) (q : t) :
  match turn tn b q with
  | Reconnected slept b' q' =>
      exists reason s,
        inner_loop (passes tn) (mkLoop q b (mkStatus true 0 0) true) = (reason, s)
        /\ reason <> Waiting /\ reason <> NullHandshake
        /\ owns_lock s = true /\ shutdown (client s) = false
        /\ shutdown_after tn = false
        /\ slept = backoff s
        /\ b' = (if slept <? 2048 then slept + 1 else slept)
        /\ connect (world tn) (with_shutdown false (client s)) = Some q'
  | Ended q' =>
      exists reason s ok,
        inner_loop (passes tn) (mkLoop q b (mkStatus true 0 0) true) = (reason, s)
        /\ (shutdown (client s) = true \/ shutdown_after tn = true)
        /\ feed (leftover tn) (with_shutdown true (client s)) = Some (ok, q')
  | UnlockNotOwned q' =>
      exists s,
        inner_loop (passes tn) (mkLoop q b (mkStatus true 0 0) true) = (PollBroke, s)
        /\ shutdown (client s) = false /\ shutdown_after tn = false
        /\ q' = with_shutdown false (client s)
  | Blocked s =>
      inner_loop (passes tn) (mkLoop q b (mkStatus true 0 0) true) = (Waiting, s)
  | Undefined => True
  end.
Proof.
  unfold turn.
  destruct (networkStream q) as [stream|]; [|exact I].
  destruct (inner_loop (passes tn) (mkLoop q b (mkStatus true 0 0) true))
    as [reason s] eqn:Hrun.
  pose proof (inner_loop_exit (passes tn) (mkLoop q b (mkStatus true 0 0) true) s reason
                eq_refl Hrun) as (Hexit & _).
  pose proof (turn_end_cases tn s) as Hend.
  assert (Hlock : reason <> PollBroke -> reason <> Waiting -> reason <> NullHandshake ->
                  owns_lock s = true).
  { intros H1 H2 H3. destruct reason; try congruence; simpl in Hexit;
      try (destruct Hexit as [Ho _]; exact Ho).
    destruct Hexit as [_ ->]. reflexivity. }
  destruct reason; try reflexivity; try exact I;
    destruct (turn_end tn s) as [q'|slept b' q'|s0|q'|];
    try contradiction; try exact I.
  all: try (destruct Hend as (ok & Hsd & Hfeed); eexists _, s, ok;
            repeat split; eassumption).
  all: try (destruct Hend as (Ho & Hs1 & Hs2 & Hsl & Hb & Hc); eexists _, s;
            repeat split; (eassumption || discriminate)).
  all: try (exists s; destruct Hend as (Ho & Hs1 & Hs2 & Hq); repeat split; assumption).
  all: destruct Hend as (Ho & _); rewrite Hlock in Ho by discriminate; discriminate Ho.
Qed.

Lemma connect_Some (w : World) (q q' : t) :
  connect w q = Some q' ->
  members q' = members q
  /\ (nextMember q < length (members q))%nat
  /\ nextMember q' = ((nextMember q + 1) mod length (members q))%nat
  /\ (nextMember q' < length (members q'))%nat.
Proof.
  intros Hc.
  assert (Hsome : is_Some (members q !! nextMember q)).
  { unfold connect in Hc.
    change (members (cleanup q)) with (members q) in Hc.
    change (nextMember (cleanup q)) with (nextMember q) in Hc.
    destruct (members q !! nextMember q) as [e|]; [eexists; reflexivity|discriminate]. }
  destruct Hsome as [e He].
  destruct (connect_fields w q e He) as (q2 & Hc2 & Hm & Hn & _).
  rewrite Hc in Hc2. injection Hc2 as <-.
  pose proof (lookup_lt_Some _ _ _ He) as Hlt.
  split; [exact Hm|]. split; [exact Hlt|]. split; [exact Hn|].
  rewrite Hn, Hm. apply Nat.mod_upper_bound. lia.
Qed.

Lemma inner_loop_shutdown (ps : list Pass) (s s' : LoopState) (reason : InnerExit) :
  shutdown (client s) = true ->
  inner_loop ps s = (reason, s') ->
  shutdown (client s') = true /\ reason <> ConnectionDied /\ reason <> FeedFailed.
Proof.
  intros Hsd Hrun. destruct ps as [|p rest]; cbn [inner_loop] in Hrun.
  - destruct (stream_is_ok (client s)); simpl in Hrun; injection Hrun as <- <-;
      repeat split; (assumption || discriminate).
  - destruct (stream_is_ok (client s)); simpl negb in Hrun; cbv iota in Hrun;
      [|injection Hrun as <- <-; repeat split; (assumption || discriminate)].
    cbn [bytesRead status backoff client owns_lock] in Hrun.
    destruct (if bytesRead (status s) <=? 0
              then match poll_result p with
                   | PollFailed => true
                   | _ => false
                   end
              else false).
    { injection Hrun as <- <-. repeat split; (assumption || discriminate). }
    cbn [shutdown with_shutdown] in Hrun. rewrite Hsd in Hrun. simpl in Hrun.
    injection Hrun as <- <-. repeat split; (reflexivity || discriminate).
Qed.

Lemma turn_reconnected (tn : Turn) (b : Z) (q q' : t) (slept b' : Z) :
  turn tn b q = Reconnected slept b' q' ->
  exists q0,
    slept = (if stream_is_ok q then 1 else b)
    /\ b' = (if slept <? 2048 then slept + 1 else slept)
    /\ shutdown_after tn = false
    /\ shutdown q = false
    /\ connect (world tn) (with_shutdown false q0) = Some q'
    /\ members q0 = members q /\ nextMember q0 = nextMember q
    /\ (stream_is_ok q = false -> q0 = q).
Proof.
  intros Hturn. pose proof (turn_cases tn b q) as Hcases. rewrite Hturn in Hcases.
  destruct Hcases as (reason & s & Hrun & Hw & Hnh & Ho & Hsd & Hsa & Hsl & Hb & Hc).
  pose proof (inner_loop_exit (passes tn) (mkLoop q b (mkStatus true 0 0) true) s reason
                eq_refl Hrun) as (Hexit & _ & Hm & Hn & _).
  cbn [client] in Hexit, Hm, Hn.
  assert (Hq : shutdown q = false).
  { destruct (shutdown q) eqn:Hq; [|reflexivity].
    destruct (inner_loop_shutdown (passes tn) (mkLoop q b (mkStatus true 0 0) true) s reason
                Hq Hrun) as [Habs _]. congruence. }
  exists (client s).
  assert (Hslept : slept = (if stream_is_ok q then 1 else b)
                   /\ (stream_is_ok q = false -> client s = q)).
  { destruct reason; try congruence.
    - destruct Hexit as [Hnot ->]. rewrite Hnot. simpl in Hsl.
      split; [exact Hsl|reflexivity].
    - destruct Hexit as [Hown _]. congruence.
    - destruct Hexit as [_ Hshut]. congruence.
    - destruct Hexit as (_ & Hb1 & _ & Hok). rewrite Hok. split; congruence.
    - destruct Hexit as (_ & Hb1 & _ & Hok). rewrite Hok. split; congruence. }
  destruct Hslept as [Hslept Hsame].
  repeat split; assumption.
Qed.

Lemma eventLoop_sleeps_bounded (turns : list Turn) (b : Z) (q : t) :
  1 <= b <= 2048 ->
  Forall (fun slept => 1 <= slept <= 2048) (fst (eventLoop turns b q)).
Proof.
  revert b q. induction turns as [|tn rest IH]; intros b q Hb; cbn [eventLoop].
  - constructor.
  - destruct (turn tn b q) as [q'|slept b' q'|s|q'|] eqn:Hturn; try constructor.
    destruct (turn_reconnected _ _ _ _ _ _ Hturn) as (q0 & Hsl & Hb' & _).
    assert (Hslept : 1 <= slept <= 2048) by (destruct (stream_is_ok q); lia).
    assert (Hnext : 1 <= b' <= 2048).
    { rewrite Hb'. destruct (slept <? 2048) eqn:Hlt; [apply Z.ltb_lt in Hlt|]; lia. }
    specialize (IH b' q' Hnext).
    destruct (eventLoop rest b' q') as [sleeps final]. simpl in *.
    constructor; assumption.
Qed.

Lemma eventLoop_unreachable (turns : list Turn) (b : Z) (q : t) :
  1 <= b <= 2048 ->
  Forall (fun tn => shutdown_after tn = false
                    /\ forall e, reachable (world tn) e = false) turns ->
  is_Some (networkStream q) -> stream_is_ok q = false -> shutdown q = false ->
  (nextMember q < length (members q))%nat ->
  snd (eventLoop turns b q) = None
  /\ length (fst (eventLoop turns b q)) = length turns
  /\ forall k, (k < length turns)%nat ->
       fst (eventLoop turns b q) !! k = Some (Z.min (b + Z.of_nat k) 2048).
Proof.
  revert b q. induction turns as [|tn rest IH]; intros b q Hb Hall Hns Hnot Hsd Hin;
    cbn [eventLoop].
  - simpl. repeat split. intros k Hk. lia.
  - apply Forall_cons in Hall as [[Hsa Hreach] Hall].
    destruct (lookup_lt_is_Some_2 _ _ Hin) as [e He].
    assert (Hsame : with_shutdown (shutdown q || shutdown_after tn) q = q).
    { rewrite Hsd, Hsa. destruct q. simpl in *. subst. reflexivity. }
    destruct (connect_fields (world tn) q e He) as (q' & Hc & Hm & Hn & Ht & _).
    assert (Hturn : turn tn b q
                    = Reconnected b (if b <? 2048 then b + 1 else b) q').
    { unfold turn. destruct Hns as [stream Hstream0]. rewrite Hstream0.
      destruct (passes tn) as [|p ps]; cbn [inner_loop client]; rewrite Hnot; simpl negb;
        cbv iota; unfold turn_end; cbn [client owns_lock backoff];
        rewrite Hsame, Hsd; simpl; unfold eventLoop_turn; rewrite Hsd, Hc; reflexivity. }
    rewrite Hturn.
    destruct (connect_stream (world tn) q q' Hc) as (Hstream & Hshut & _).
    destruct (connect_Some (world tn) q q' Hc) as (_ & _ & _ & Hin').
    assert (Hb' : 1 <= (if b <? 2048 then b + 1 else b) <= 2048).
    { destruct (b <? 2048) eqn:Hlt; [apply Z.ltb_lt in Hlt|]; lia. }
    assert (Hnot' : stream_is_ok q' = false).
    { unfold stream_is_ok. rewrite Hstream. simpl. apply Hreach. }
    destruct (IH _ q' Hb' Hall) as (Hfinal & Hlen & Hlook);
      [rewrite Hstream; eexists; reflexivity|exact Hnot'|congruence|exact Hin'|].
    destruct (eventLoop rest (if b <? 2048 then b + 1 else b) q') as [sleeps final].
    simpl in *. split; [exact Hfinal|]. split; [lia|].
    intros [|k] Hk.
    + simpl. f_equal. lia.
    + simpl. rewrite Hlook by lia. f_equal.
      destruct (b <? 2048) eqn:Hlt; [apply Z.ltb_lt in Hlt|apply Z.ltb_ge in Hlt]; lia.
Qed.

End Turns.

(** X16.  How long a reconnecting turn sleeps: 1 ms if the turn began on a
    stream that was up (the backoff is reset as soon as a pass of the inner
    loop gets past the shutdown test), and the backoff carried over from
    the turn before if the stream never came up; the backoff then grows by
    one, up to 2048.  A turn that reconnects has not seen the shutdown flag,
    and leaves the members as they are. *)
Theorem reconnect_sleep `{EndpointOps} (tn : EventLoop.Turn) (b : Z)
        (q q' : QClient.t) (slept b' : Z) :
  EventLoop.turn tn b q = EventLoop.Reconnected slept b' q' ->
  slept = (if EventLoop.stream_is_ok q then 1 else b)
  /\ b' = (if slept <? 2048 then slept + 1 else slept)
  /\ QClient.shutdown q = false /\ QClient.shutdown q' = false
  /\ QClient.members q' = QClient.members q.
Proof.
  intros Hturn.
  destruct (turn_reconnected _ _ _ _ _ _ Hturn)
    as (q0 & Hsl & Hb & _ & Hsd & Hc & Hm & _).
  destruct (connect_stream _ _ _ Hc) as (_ & Hshut & _).
  destruct (connect_Some _ _ _ Hc) as (Hm' & _).
  repeat split; try assumption.
  rewrite Hm'. exact Hm.
Qed.

Example turn_dies_run :
  EventLoop.turn Scenarios.turn_dies 7 Examples.plain_busy
  = EventLoop.Reconnected 1 2 (Scenarios.after_turn Scenarios.turn_dies 7 Examples.plain_busy)
  /\ EventLoop.stream_is_ok Examples.plain_busy = true.
Proof. vm_compute. split; reflexivity. Qed.

Lemma reconnect_sleep_witness :
  EventLoop.turn Scenarios.turn_dies 7 Examples.plain_busy
  = EventLoop.Reconnected 1 2 (Scenarios.after_turn Scenarios.turn_dies 7 Examples.plain_busy)
  /\ 1 = (if EventLoop.stream_is_ok Examples.plain_busy then 1 else 7).
Proof.
  split; [exact (proj1 turn_dies_run)|].
  exact (proj1 (reconnect_sleep Scenarios.turn_dies 7 Examples.plain_busy _ 1 2
                  (proj1 turn_dies_run))).
Defined.

(** X17.  The event loop never sleeps less than 1 ms nor more than 2048 ms,
    whatever the network and the server do. *)
Theorem sleeps_between_1_and_2048 `{EndpointOps} (turns : list EventLoop.Turn)
        (q : QClient.t) :
  Forall (fun slept => 1 <= slept <= 2048) (fst (EventLoop.eventLoop turns 1 q)).
Proof. apply eventLoop_sleeps_bounded. lia. Qed.

(** X18.  While no endpoint can be reached, the loop goes on reconnecting
    (it never gives up by itself), and sleeps 1, 2, 3, ... milliseconds
    between the attempts, up to 2048 ms and 2048 ms from then on. *)
Theorem unreachable_backoff `{EndpointOps} (turns : list EventLoop.Turn)
        (q : QClient.t) (k : nat) :
  Forall (fun tn => EventLoop.shutdown_after tn = false
                    /\ forall e, QClient.reachable (EventLoop.world tn) e = false) turns ->
  is_Some (QClient.networkStream q) -> EventLoop.stream_is_ok q = false ->
  QClient.shutdown q = false ->
  (QClient.nextMember q < length (QClient.members q))%nat ->
  (k < length turns)%nat ->
  snd (EventLoop.eventLoop turns 1 q) = None
  /\ fst (EventLoop.eventLoop turns 1 q) !! k = Some (Z.min (1 + Z.of_nat k) 2048).
Proof.
  intros Hall Hns Hnot Hsd Hin Hk.
  destruct (eventLoop_unreachable turns 1 q ltac:(lia) Hall Hns Hnot Hsd Hin)
    as (Hfinal & _ & Hlook).
  split; [exact Hfinal|apply Hlook; exact Hk].
Qed.

Example client_down_facts :
  is_Some (QClient.networkStream Scenarios.client_down)
  /\ EventLoop.stream_is_ok Scenarios.client_down = false
  /\ QClient.shutdown Scenarios.client_down = false
  /\ (QClient.nextMember Scenarios.client_down
      < length (QClient.members Scenarios.client_down))%nat.
Proof.
  split; [eexists; vm_compute; reflexivity|].
  split; [vm_compute; reflexivity|]. split; [vm_compute; reflexivity|].
  vm_compute. lia.
Qed.

Lemma unreachable_backoff_witness :
  Forall (fun tn => EventLoop.shutdown_after tn = false
                    /\ forall e, QClient.reachable (EventLoop.world tn) e = false)
         [Scenarios.turn_down; Scenarios.turn_down; Scenarios.turn_down]
  /\ EventLoop.stream_is_ok Scenarios.client_down = false
  /\ fst (EventLoop.eventLoop
            [Scenarios.turn_down; Scenarios.turn_down; Scenarios.turn_down] 1
            Scenarios.client_down) !! 2%nat
     = Some (Z.min (1 + Z.of_nat 2) 2048).
Proof.
  assert (Hall : Forall (fun tn => EventLoop.shutdown_after tn = false
                    /\ forall e, QClient.reachable (EventLoop.world tn) e = false)
                        [Scenarios.turn_down; Scenarios.turn_down; Scenarios.turn_down]).
  { repeat constructor. }
  destruct client_down_facts as (Hns & Hnot & Hsd & Hin).
  split; [exact Hall|]. split; [exact Hnot|].
  exact (proj2 (unreachable_backoff _ Scenarios.client_down 2 Hall Hns Hnot Hsd Hin
                  (Nat.lt_succ_diag_r 2))).
Defined.

(** X19.  The lock of a turn: when [poll] fails with an error other than
    EINTR, the inner loop is left between [lock.unlock()] and [lock.lock()].
    With no shutdown requested, the turn then calls [lock.unlock()] on a
    lock that does not hold the mutex, and neither sleeps nor reconnects;
    a failing [poll] is the only way for a turn to end like that. *)
Theorem poll_failure_leaves_lock_released `{EndpointOps}
        (tn : EventLoop.Turn) (b : Z) (q : QClient.t) :
  (forall q', EventLoop.turn tn b q = EventLoop.UnlockNotOwned q' ->
     exists p, p ∈ EventLoop.passes tn /\ EventLoop.poll_result p = EventLoop.PollFailed)
  /\ (forall p rest,
        EventLoop.passes tn = p :: rest ->
        EventLoop.poll_result p = EventLoop.PollFailed ->
        EventLoop.stream_is_ok q = true ->
        QClient.shutdown q = false -> EventLoop.shutdown_after tn = false ->
        EventLoop.turn tn b q = EventLoop.UnlockNotOwned (QClient.with_shutdown false q)).
Proof.
  split.
  - intros q' Hturn. pose proof (turn_cases tn b q) as Hcases. rewrite Hturn in Hcases.
    destruct Hcases as (s & Hrun & _).
    pose proof (inner_loop_exit (EventLoop.passes tn)
                  (EventLoop.mkLoop q b (EventLoop.mkStatus true 0 0) true) s
                  EventLoop.PollBroke eq_refl Hrun) as ((_ & Hp) & _).
    exact Hp.
  - intros p rest Hps Hpoll Hok Hsd Hsa.
    unfold EventLoop.turn. rewrite Hps.
    assert (Hns : is_Some (QClient.networkStream q)).
    { unfold EventLoop.stream_is_ok in Hok.
      destruct (QClient.networkStream q); [eexists; reflexivity|discriminate]. }
    destruct Hns as [stream Hstream]. rewrite Hstream.
    cbn [EventLoop.inner_loop EventLoop.client]. rewrite Hok. simpl negb. cbv iota.
    cbn [EventLoop.bytesRead EventLoop.status]. rewrite Hpoll. simpl.
    unfold EventLoop.turn_end.
    cbn [EventLoop.client EventLoop.owns_lock QClient.shutdown QClient.with_shutdown].
    rewrite Hsd, Hsa. reflexivity.
Qed.

Example plain_busy_facts :
  EventLoop.stream_is_ok Examples.plain_busy = true
  /\ QClient.shutdown Examples.plain_busy = false.
Proof. vm_compute. split; reflexivity. Qed.

Lemma poll_failure_leaves_lock_released_witness :
  EventLoop.passes Scenarios.turn_poll_fails = [Scenarios.pass_poll_fails]
  /\ EventLoop.poll_result Scenarios.pass_poll_fails = EventLoop.PollFailed
  /\ EventLoop.stream_is_ok Examples.plain_busy = true
  /\ QClient.shutdown Examples.plain_busy = false
  /\ EventLoop.turn Scenarios.turn_poll_fails 1 Examples.plain_busy
     = EventLoop.UnlockNotOwned (QClient.with_shutdown false Examples.plain_busy).
Proof.
  destruct plain_busy_facts as [Hok Hsd].
  split; [reflexivity|]. split; [reflexivity|]. split; [exact Hok|]. split; [exact Hsd|].
  exact (proj2 (poll_failure_leaves_lock_released Scenarios.turn_poll_fails 1
                  Examples.plain_busy)
               Scenarios.pass_poll_fails [] eq_refl eq_refl Hok Hsd eq_refl).
Defined.

(** X20.  Shutdown ends the thread without a further connection attempt:
    a turn that begins with the shutdown flag set, or finds it set after the
    inner loop, neither reconnects nor touches the lock wrongly; when it
    ends, the flag is set, members, round-robin index and target are as
    before, and the requests are all still there, resolved or staged (the
    loop leaves it to the destructor's [cleanup] to resolve them). *)
Theorem shutdown_ends_without_reconnect `{EndpointOps}
        (tn : EventLoop.Turn) (b : Z) (q : QClient.t) :
  QClient.shutdown q = true \/ EventLoop.shutdown_after tn = true ->
  match EventLoop.turn tn b q with
  | EventLoop.Reconnected _ _ _ => False
  | EventLoop.UnlockNotOwned _ => False
  | EventLoop.Ended q' =>
      QClient.shutdown q' = true
      /\ QClient.members q' = QClient.members q
      /\ QClient.nextMember q' = QClient.nextMember q
      /\ QClient.targetEndpoint q' = QClient.targetEndpoint q
      /\ Observations.history (QClient.writerThread q')
         = Observations.history (QClient.writerThread q)
  | _ => True
  end.
Proof.
  intros Hflag. pose proof (turn_cases tn b q) as Hcases.
  destruct (EventLoop.turn tn b q) as [q'|slept b' q'|s|q'|] eqn:Hturn; try exact I.
  - destruct Hcases as (reason & s & ok & Hrun & _ & Hfeed).
    pose proof (inner_loop_exit (EventLoop.passes tn)
                  (EventLoop.mkLoop q b (EventLoop.mkStatus true 0 0) true) s reason
                  eq_refl Hrun) as (_ & _ & Hm & Hn & Ht & _ & Hh).
    destruct (feed_frame _ _ _ _ Hfeed) as (Hm' & Hn' & Ht' & _ & Hd' & _ & _ & Hh' & _).
    cbn [EventLoop.client] in Hm, Hn, Ht, Hh. simpl in Hm', Hn', Ht', Hd', Hh'.
    rewrite Hm', Hn', Ht', Hd', Hh'. repeat split; assumption.
  - destruct (turn_reconnected _ _ _ _ _ _ Hturn) as (q0 & _ & _ & Hsa & Hsd & _).
    destruct Hflag; congruence.
  - destruct Hcases as (s & Hrun & Hsd & Hsa & _).
    destruct Hflag as [Hq|Hafter]; [|congruence].
    destruct (inner_loop_shutdown (EventLoop.passes tn)
                (EventLoop.mkLoop q b (EventLoop.mkStatus true 0 0) true) s
                EventLoop.PollBroke Hq Hrun) as [Habs _].
    congruence.
Qed.

Example turn_shutdown_run :
  EventLoop.turn Scenarios.turn_shutdown 1 Examples.plain_busy
  = EventLoop.Ended (Scenarios.after_turn Scenarios.turn_shutdown 1 Examples.plain_busy)
  /\ WriterThread.staged
       (QClient.writerThread
          (Scenarios.after_turn Scenarios.turn_shutdown 1 Examples.plain_busy))
     = [["GET"; "x"]].
Proof. vm_compute. split; reflexivity. Qed.

Lemma shutdown_ends_without_reconnect_witness :
  QClient.shutdown Examples.plain_busy = false
  /\ EventLoop.shutdown_after
       (EventLoop.mkTurn (EventLoop.passes Scenarios.turn_shutdown) true []
                         Examples.world0) = true
  /\ match EventLoop.turn
             (EventLoop.mkTurn (EventLoop.passes Scenarios.turn_shutdown) true []
                               Examples.world0) 1 Examples.plain_busy with
     | EventLoop.Reconnected _ _ _ => False
     | EventLoop.UnlockNotOwned _ => False
     | _ => True
     end.
Proof.
  split; [exact (proj2 plain_busy_facts)|]. split; [reflexivity|].
  pose proof (shutdown_ends_without_reconnect
                (EventLoop.mkTurn (EventLoop.passes Scenarios.turn_shutdown) true []
                                  Examples.world0) 1 Examples.plain_busy
                (or_intror eq_refl)) as Hend.
  destruct (EventLoop.turn _ 1 Examples.plain_busy); try exact I; exact Hend.
Defined.

(** ** [QClient::HandleResponse] *)

(** X21.  [HandleResponse] reads at most three futures.  It returns exactly
    when one of them holds a reply that is not an error, all before it being
    nil, and then returns that reply, never nil and never an error; it
    throws on an error reply in that position; and it throws "NULL response"
    exactly when all three are nil.  Each nil makes it execute the command
    again, the third one included, whose future is never read. *)
Theorem HandleResponse_outcomes (answers : nat -> redisReplyPtr) :
  let '(outcome, executed) := SyncCall.HandleResponse answers in
  (executed <= 3)%nat
  /\ (forall j, (j < executed)%nat -> (j < 3)%nat -> answers j = None)
  /\ match outcome with
     | SyncCall.Returned reply =>
         (executed < 3)%nat /\ reply = answers executed
         /\ exists r, reply = Some r /\ forall str, r <> REDIS_REPLY_ERROR str
     | SyncCall.ThrowError =>
         (executed < 3)%nat /\ exists str, answers executed = Some (REDIS_REPLY_ERROR str)
     | SyncCall.ThrowNull =>
         executed = 3%nat /\ answers 0%nat = None /\ answers 1%nat = None
         /\ answers 2%nat = None
     end.
Proof.
  unfold SyncCall.HandleResponse. cbn [SyncCall.retry_loop].
  destruct (answers 0%nat) as [r0|] eqn:H0.
  { destruct r0; cbn; (split; [lia|]); (split; [intros j Hj; lia|]);
      (split; [lia|]);
      try (split; [congruence|]; eexists; split; [reflexivity|]; intros str0;
           discriminate).
    eexists. exact H0. }
  destruct (answers 1%nat) as [r1|] eqn:H1.
  { assert (Hnone : forall j, (j < 1)%nat -> (j < 3)%nat -> answers j = None).
    { intros j Hj _. assert (j = 0%nat) as -> by lia. exact H0. }
    destruct r1; cbn; (split; [lia|]); (split; [exact Hnone|]);
      (split; [lia|]);
      try (split; [congruence|]; eexists; split; [reflexivity|]; intros str0;
           discriminate).
    eexists. exact H1. }
  destruct (answers 2%nat) as [r2|] eqn:H2.
  { assert (Hnone : forall j, (j < 2)%nat -> (j < 3)%nat -> answers j = None).
    { intros j Hj _. destruct j as [|[|j]]; [exact H0|exact H1|lia]. }
    destruct r2; cbn; (split; [lia|]); (split; [exact Hnone|]);
      (split; [lia|]);
      try (split; [congruence|]; eexists; split; [reflexivity|]; intros str0;
           discriminate).
    eexists. exact H2. }
  cbn. split; [lia|].
  split; [intros j Hj _; destruct j as [|[|[|j]]]; [exact H0|exact H1|exact H2|lia]|].
  repeat split; assumption.
Qed.

Lemma HandleResponse_outcomes_witness :
  let answers := fun i : nat =>
                   match i with
                   | 1%nat => Some (REDIS_REPLY_INTEGER 1)
                   | _ => None
                   end in
  SyncCall.HandleResponse answers = (SyncCall.Returned (Some (REDIS_REPLY_INTEGER 1)), 1%nat)
  /\ (forall j, (j < 1)%nat -> (j < 3)%nat -> answers j = None).
Proof.
  intros answers. split; [reflexivity|].
  exact (proj1 (proj2 (HandleResponse_outcomes answers))).
Defined.

(** X22.  What a connection attempt sets up: the stream to the target, up
    or not; the writer activated on the target exactly when the stream is
    up, and [available] cleared when it is not; and, in both cases, the
    queue emptied of what was staged before, with the handshake, if there is
    one, staged and marked pending. *)
Theorem connect_sets_up_stream_and_writer `{EndpointOps}
        (w : QClient.World) (q q' : QClient.t) :
  QClient.connect w q = Some q' ->
  QClient.networkStream q'
  = Some (QClient.mkStream (QClient.targetEndpoint q')
                           (QClient.reachable w (QClient.targetEndpoint q')))
  /\ WriterThread.active (QClient.writerThread q')
     = (if QClient.reachable w (QClient.targetEndpoint q')
        then Some (QClient.targetEndpoint q') else None)
  /\ (QClient.reachable w (QClient.targetEndpoint q') = false -> QClient.available q' = false)
  /\ QClient.handshakePending q' = bool_decide (is_Some (QClient.handshake q))
  /\ WriterThread.staged (QClient.writerThread q')
     = match QClient.handshake q with
       | Some hs => [provideHandshake hs]
       | None => []
       end.
Proof.
  intros Hc.
  destruct (connect_stream w q q' Hc) as (Hs & _ & Ha & Hav).
  destruct (connect_writer w q q' Hc) as (_ & Hp & _ & Hst).
  split; [exact Hs|]. split; [exact Ha|]. split; [|split; assumption].
  intros Hdown. rewrite Hav, Hdown. reflexivity.
Qed.

Example connect_down_run :
  QClient.connect Scenarios.world_down (Examples.fresh true (Some Examples.auth))
  = Some Scenarios.auth_down.
Proof. vm_compute. reflexivity. Qed.

Lemma connect_sets_up_stream_and_writer_witness :
  QClient.connect Scenarios.world_down (Examples.fresh true (Some Examples.auth))
  = Some Scenarios.auth_down
  /\ WriterThread.active (QClient.writerThread Scenarios.auth_down)
     = (if QClient.reachable Scenarios.world_down
             (QClient.targetEndpoint Scenarios.auth_down)
        then Some (QClient.targetEndpoint Scenarios.auth_down) else None).
Proof.
  split; [exact connect_down_run|].
  exact (proj1 (proj2 (connect_sets_up_stream_and_writer _ _ _ connect_down_run))).
Defined.

(** ** [SharedHash]: what changes the contents *)

Section Quiet.
Import SharedHash HashTrace Wording.

Lemma checkFuture_effect (h : t) :
  (contents (checkFuture h) = contents h
   /\ currentVersion (checkFuture h) = currentVersion h)
  \/ exists id reply n elems,
       futureReply h = Some id
       /\ ClientPort.replies (qcl h) !! id = Some reply
       /\ resilver_shape reply = Some (n, elems)
       /\ contents (checkFuture h) = decoded_map elems
       /\ currentVersion (checkFuture h) = wrap64 n.
Proof.
  unfold checkFuture.
  destruct (futureReply h) as [fut|] eqn:Hfut; [|left; split; reflexivity].
  destruct (ClientPort.replies (qcl h) !! fut) as [reply|] eqn:Hreply;
    [|left; split; reflexivity].
  destruct (handleResponse_contents reply (with_future None h)) as [Hc Hv].
  destruct (resilver_shape reply) as [[n elems]|] eqn:Hshape.
  - right. exists fut, reply, n, elems. repeat split; assumption.
  - left. split; assumption.
Qed.

End Quiet.

Lemma reconnect_drops_unapplied_reply_aux (epoch : Z) (h : SharedHash.t) :
  Observations.replies_issued (SharedHash.qcl h) ->
  SharedHash.contents (SharedHash.notifyConnectionEstablished epoch h) = SharedHash.contents h
  /\ SharedHash.currentVersion (SharedHash.notifyConnectionEstablished epoch h)
     = SharedHash.currentVersion h.
Proof.
  intros Hissued.
  assert (Hnone : ClientPort.replies (SharedHash.qcl h)
                  !! length (ClientPort.requests (SharedHash.qcl h)) = None).
  { destruct (ClientPort.replies (SharedHash.qcl h)
              !! length (ClientPort.requests (SharedHash.qcl h))) as [r|] eqn:Hr;
      [|reflexivity].
    apply Hissued in Hr. lia. }
  unfold SharedHash.notifyConnectionEstablished, SharedHash.checkFuture. simpl.
  rewrite Hnone. simpl. split; reflexivity.
Qed.

(** X23.  Only two things change the contents or the version of a hash: an
    accepted [feedRevision], and the awaited resilver reply once it has
    arrived well formed.  Notifications, incoming messages (which
    [processIncoming] does not look into), reads, writes and the arrival of
    replies leave both as they are, unless the step applies that reply. *)
Theorem contents_change_only_by_feed_or_resilver (e : HashTrace.Event) (h : SharedHash.t) :
  Observations.replies_issued (SharedHash.qcl h) ->
  (forall revision updates, e <> HashTrace.Feed revision updates) ->
  (SharedHash.contents (HashTrace.step e h) = SharedHash.contents h
   /\ SharedHash.currentVersion (HashTrace.step e h) = SharedHash.currentVersion h)
  \/ exists id reply n elems,
       SharedHash.futureReply h = Some id
       /\ ClientPort.replies (SharedHash.qcl h) !! id = Some reply
       /\ Wording.resilver_shape reply = Some (n, elems)
       /\ SharedHash.contents (HashTrace.step e h) = Wording.decoded_map elems
       /\ SharedHash.currentVersion (HashTrace.step e h) = wrap64 n.
Proof.
  intros Hissued Hnofeed.
  destruct e as [epoch|epoch errc msg| |field| |batch|revision updates|id reply];
    cbn [HashTrace.step].
  - left. destruct (reconnect_drops_unapplied_reply_aux epoch h Hissued) as (Hc & Hv).
    split; assumption.
  - left. split; reflexivity.
  - apply checkFuture_effect.
  - apply checkFuture_effect.
  - apply checkFuture_effect.
  - left. split; reflexivity.
  - exfalso. apply (Hnofeed revision updates). reflexivity.
  - left. split; reflexivity.
Qed.

Lemma contents_change_only_by_feed_or_resilver_witness :
  let h := HashTrace.run [HashTrace.ReplyArrives 0 (Examples.vhgetall 7 [])] Examples.hash0 in
  Observations.replies_issued (SharedHash.qcl h)
  /\ (forall revision updates, HashTrace.Incoming <> HashTrace.Feed revision updates)
  /\ ((SharedHash.contents (HashTrace.step HashTrace.Incoming h) = SharedHash.contents h
       /\ SharedHash.currentVersion (HashTrace.step HashTrace.Incoming h)
          = SharedHash.currentVersion h)
      \/ exists id reply n elems,
           SharedHash.futureReply h = Some id
           /\ ClientPort.replies (SharedHash.qcl h) !! id = Some reply
           /\ Wording.resilver_shape reply = Some (n, elems)
           /\ SharedHash.contents (HashTrace.step HashTrace.Incoming h)
              = Wording.decoded_map elems
           /\ SharedHash.currentVersion (HashTrace.step HashTrace.Incoming h) = wrap64 n).
Proof.
  intros h.
  assert (Hissued : Observations.replies_issued (SharedHash.qcl h)).
  { intros id r Hid. subst h. simpl in Hid.
    destruct (decide (id = 0%nat)) as [->|Hne]; [simpl; lia|].
    rewrite lookup_insert_ne in Hid by congruence.
    rewrite lookup_empty in Hid. discriminate Hid. }
  assert (Hnofeed : forall revision updates,
                      HashTrace.Incoming <> HashTrace.Feed revision updates)
    by (intros revision updates; discriminate).
  split; [exact Hissued|]. split; [exact Hnofeed|].
  exact (contents_change_only_by_feed_or_resilver HashTrace.Incoming h Hissued Hnofeed).
Defined.
